(** * ACES patch pipeline: a shallow embedding of the training-data generator

    The development follows the Python sources

      - [src/aces/utils.py]: [EEUtils.beam_get_training_patches] with its
        retried [get_patch], [TFUtils.beam_serialize], [Utils.split_dataset]
        and [Utils.filter_good_patches];
      - [src/examples/generate_training_patches.py]:
        [TrainingDataGenerator.load_data],
        [TrainingDataGenerator.generate_training_patch_data] and
        [TrainingDataGenerator.generate_training_patch_seed_data];
      - [src/aces/utils.py] again for [EEUtils.export_collection_data], and
        [src/aces/model_trainer.py] for [ModelTrainer.prepare_output_dir]
        and the learning rate schedule.

    Conventions of the embedding.

      - A numpy [float32] is a [spec_float] of the Standard Library with
        precision 24 and maximal exponent 128; additions round to nearest
        even and overflow to an infinity, as the hardware does.
      - A Python [float] that enters arithmetic (a ratio, a weight, a
        random draw) is a [spec_float] with precision 53 and maximal
        exponent 1024, with the operations of IEEE 754 binary64.
      - The coordinates of a point and the lengths of a region are only
        carried to the backend; they are rationals ([Q]) and the region is
        read in the plane.
      - A Python exception is a value of [exn]; code that may raise returns
        a [result].
      - Time is a number of milliseconds ([Z]); sleeping and calling the
        backend advance an explicit clock.
      - The random source is an explicit state with a [random] step.

    Part I holds the definitions, Part II the statements about them. *)

From Stdlib Require Import ZArith QArith Lia Lqa List Floats.SpecFloat.
From Stdlib Require Import Strings.String Strings.Ascii Strings.Byte.
From Stdlib Require Import Sorting.Permutation.
From stdpp Require Import base option list gmap strings pretty.

Open Scope Z_scope.

(** * Part I: the embedding *)

(** ** numpy float32 *)

Module Float32.

Definition prec : Z := 24.
Definition emax : Z := 128.

(** A value of dtype [float32]. *)
Definition float32 : Type := spec_float.

Definition valid (x : float32) : bool := valid_binary prec emax x.

Definition add : float32 -> float32 -> float32 := SFadd prec emax.

Definition zero : float32 := S754_zero false.
Definition nan : float32 := S754_nan.
Definition inf : float32 := S754_infinity false.

(** The largest finite float32, (2^24 - 1) * 2^104, about 3.4e38. *)
Definition max_float : float32 := S754_finite false (2 ^ 24 - 1) 104.

(** 1.0 *)
Definition one : float32 := S754_finite false (2 ^ 23) (-23).

(** [np.isnan], [np.isinf] and [np.isfinite] on a scalar. *)
Definition isnan (x : float32) : bool :=
  match x with S754_nan => true | _ => false end.

Definition isinf (x : float32) : bool :=
  match x with S754_infinity _ => true | _ => false end.

Definition isfinite (x : float32) : bool :=
  match x with S754_nan | S754_infinity _ => false | _ => true end.

End Float32.

Export Float32.

(** ** Python floats *)

Definition float64 : Type := spec_float.

Module Float64.

Definition prec : Z := 53.
Definition emax : Z := 1024.

Definition valid (x : float64) : bool := valid_binary prec emax x.

Definition add : float64 -> float64 -> float64 := SFadd prec emax.
Definition sub : float64 -> float64 -> float64 := SFsub prec emax.
Definition mul : float64 -> float64 -> float64 := SFmul prec emax.

(** [x < y] and [x <= y]; both are false when an operand is a NaN. *)
Definition ltb : float64 -> float64 -> bool := SFltb.
Definition leb : float64 -> float64 -> bool := SFleb.

Definition zero : float64 := S754_zero false.

(** 1.0 *)
Definition one : float64 := S754_finite false (2 ^ 52) (-52).

(** [math.isfinite]. *)
Definition isfinite (x : float64) : bool :=
  match x with S754_nan | S754_infinity _ => false | _ => true end.

End Float64.

Arguments Float64.add : simpl never.
Arguments Float64.sub : simpl never.
Arguments Float64.mul : simpl never.
Arguments Float64.ltb : simpl never.
Arguments Float64.leb : simpl never.

(** ** numpy structured arrays: the decoded patch

    [np.load] of the NPY answer gives a structured array: a height x width
    grid whose every element is a record with one [float32] per band, the
    fields named by [dtype.names]. Memory is row-major, the fields of one
    pixel lying side by side. *)

Record Patch : Type := mkPatch {
  dtype_names : list string;
  rows : list (list (list float32))
}.

(** What numpy guarantees of such an array: field names are distinct, the
    grid is rectangular, each pixel has one value per field, and every
    value is a float32. *)
Definition pixel_ok (p : Patch) (px : list float32) : bool :=
  Nat.eqb (length px) (length (dtype_names p)).

Definition row_ok (p : Patch) (width : nat) (row : list (list float32)) : bool :=
  Nat.eqb (length row) width && forallb (pixel_ok p) row.

Definition patch_wf (p : Patch) : bool :=
  bool_decide (NoDup (dtype_names p))
  && match rows p with
     | [] => true
     | r :: _ => forallb (row_ok p (length r)) (rows p)
     end
  && forallb valid (concat (concat (rows p))).

(** [patch.view(np.float32)]: the same memory read as plain float32, of
    shape (height, width * bands). *)
Definition view_float32 (p : Patch) : list (list float32) :=
  map (fun row => concat row) (rows p).

(** Position of a field name in [dtype.names]. *)
Fixpoint index_of (name : string) (names : list string) : option nat :=
  match names with
  | [] => None
  | n :: rest =>
      if String.eqb name n then Some O
      else option_map S (index_of name rest)
  end.

(** [patch[name]]: the 2-D array of one band; [None] stands for the
    [ValueError] numpy raises for a name that is no field. *)
Definition patch_get (p : Patch) (name : string) : option (list (list float32)) :=
  i ← index_of name (dtype_names p);
  mapM (mapM (fun px : list float32 => px !! i)) (rows p).

(** [a.flatten()]: row-major (C order). *)
Definition np_flatten (a : list (list float32)) : list float32 := concat a.

(** [np.sum(a)] of a float32 array: all elements are added in float32.
    Up to eight elements numpy runs the plain loop below; for longer arrays
    it adds the same elements in pairwise blocks. [sums_to] describes every
    such order of additions. *)
Definition np_sum (a : list (list float32)) : float32 :=
  fold_left add (np_flatten a) zero.

Inductive sums_to : list float32 -> float32 -> Prop :=
  | sums_nil : sums_to [] zero
  | sums_one x : sums_to [x] x
  | sums_app l1 l2 s1 s2 :
      sums_to l1 s1 -> sums_to l2 s2 -> sums_to (l1 ++ l2) (add s1 s2).

(** ** Utils.filter_good_patches (utils.py, lines 369-385) *)

Definition filter_good_patches (patch : Patch) : bool :=
  let has_nan := isnan (np_sum (view_float32 patch)) in
  let has_inf := isinf (np_sum (view_float32 patch)) in
  if has_nan || has_inf then false else true.

(** The values of a patch, and the patches the docstring calls good: those
    with no NaN and no infinite value. *)
Definition patch_values (p : Patch) : list float32 :=
  np_flatten (view_float32 p).

Definition all_finite (p : Patch) : bool := forallb isfinite (patch_values p).

(** ** Exceptions and results *)

Inductive exn : Type :=
  | ValueError (msg : string)
  | IndexError
  | TooManyRequests (text : string)   (* google.api_core.exceptions *)
  | InternalServerError (text : string) (* google.api_core.exceptions *)
  | ServiceUnavailable (text : string)  (* google.api_core.exceptions *)
  | RetryError (cause : exn)          (* google.api_core.exceptions *)
  | HTTPError (status : Z)            (* requests.exceptions, raise_for_status *)
  | ConnectionError                   (* requests.exceptions, raised by requests.get *)
  | ChunkedEncodingError              (* requests.exceptions, raised by requests.get *)
  | TransportError                    (* google.auth.exceptions *)
  | EEException (msg : string)        (* ee.EEException *)
  | NpyLoadError.                     (* np.load on bytes that are no NPY file *)

Inductive result (A : Type) : Type :=
  | Ok (a : A)
  | Raise (e : exn).

Arguments Ok {A} a.
Arguments Raise {A} e.

Definition bind {A B : Type} (r : result A) (k : A -> result B) : result B :=
  match r with
  | Ok a => k a
  | Raise e => Raise e
  end.

Notation "'do' x <- r ; k" := (bind r (fun x => k))
  (at level 10, x binder, r at level 100, k at level 200).

Definition is_ok {A : Type} (r : result A) : bool :=
  match r with Ok _ => true | Raise _ => false end.

(** [beam.Map(f)] over the elements of a collection: an exception raised
    by [f] for one element is not caught by the pipeline code, so it ends
    the stage. *)
Fixpoint map_stage {A B : Type} (f : A -> result B) (l : list A) : result (list B) :=
  match l with
  | [] => Ok []
  | x :: rest =>
      do y <- f x;
      do ys <- map_stage f rest;
      Ok (y :: ys)
  end.

(** ** The random source

    [random.random()] of Python's module-level generator: each call returns
    the next draw and moves the generator on. The generator's future draws
    are the sequence [draws]; [pos] is how many were consumed. *)

Record RandomState : Type := mkRandomState {
  draws : nat -> float64;
  pos : nat
}.

Definition random (st : RandomState) : float64 * RandomState :=
  (draws st (pos st), mkRandomState (draws st) (S (pos st))).

(** ** random.choices with weights (CPython, Lib/random.py) *)

(** [itertools.accumulate(weights)]: the running sums, added as floats. *)
Fixpoint accumulate_from (acc : float64) (ws : list float64) : list float64 :=
  match ws with
  | [] => []
  | w :: rest => Float64.add acc w :: accumulate_from (Float64.add acc w) rest
  end.

Definition accumulate (ws : list float64) : list float64 :=
  match ws with
  | [] => []
  | w :: rest => w :: accumulate_from w rest
  end.

(** [bisect.bisect_right(a, x, lo, hi)]:

      while lo < hi:
          mid = (lo + hi) // 2
          if x < a[mid]: hi = mid
          else: lo = mid + 1
      return lo

    The loop runs at most [hi - lo] times; [fuel] counts them. *)
Fixpoint bisect_loop (fuel : nat) (a : list float64) (x : float64) (lo hi : nat)
    : result nat :=
  if Nat.ltb lo hi then
    match fuel with
    | O => Raise (ValueError "bisect: out of fuel")
    | S fuel' =>
        let mid := Nat.div (lo + hi) 2 in
        match a !! mid with
        | None => Raise IndexError
        | Some am =>
            if Float64.ltb x am then bisect_loop fuel' a x lo mid
            else bisect_loop fuel' a x (S mid) hi
        end
    end
  else Ok lo.

Definition bisect (a : list float64) (x : float64) (lo hi : nat) : result nat :=
  bisect_loop (hi - lo) a x lo hi.

(** [random.choices(population, weights)] with the default [k = 1]: a list
    holding one element of the population.

      cum_weights = list(_accumulate(weights))
      if len(cum_weights) != n: raise ValueError(...)
      total = cum_weights[-1] + 0.0
      if total <= 0.0: raise ValueError(...)
      if not _isfinite(total): raise ValueError(...)
      hi = n - 1
      return [population[bisect(cum_weights, random() * total, 0, hi)] ...] *)
Definition choices {A : Type} (population : list A) (weights : list float64)
    (st : RandomState) : result (list A * RandomState) :=
  let n := length population in
  let cum_weights := accumulate weights in
  if negb (Nat.eqb (length cum_weights) n) then
    Raise (ValueError "The number of weights does not match the population")
  else
    match last cum_weights with
    | None => Raise IndexError
    | Some last_weight =>
        let total := Float64.add last_weight Float64.zero in
        if Float64.leb total Float64.zero then
          Raise (ValueError "Total of weights must be greater than zero")
        else if negb (Float64.isfinite total) then
          Raise (ValueError "Total of weights must be finite")
        else
          let hi := (n - 1)%nat in
          let (u, st') := random st in
          do i <- bisect cum_weights (Float64.mul u total) 0 hi;
          match population !! i with
          | None => Raise IndexError
          | Some x => Ok ([x], st')
          end
    end.

(** ** Utils.split_dataset (utils.py, lines 331-335)

      weights = [1 - validation_ratio - test_ratio, validation_ratio, test_ratio]
      return random.choices([0, 1, 2], weights)[0] *)

Definition split_dataset {A : Type} (element : A) (num_partitions : Z)
    (validation_ratio test_ratio : float64) (st : RandomState)
    : result (Z * RandomState) :=
  let weights :=
    [Float64.sub (Float64.sub Float64.one validation_ratio) test_ratio;
     validation_ratio; test_ratio] in
  do r <- choices [0; 1; 2] weights st;
  match fst r !! 0%nat with
  | None => Raise IndexError
  | Some i => Ok (i, snd r)
  end.

(** ** beam.Partition(fn, n)

    Every element is tagged by the partition function; an index outside
    [0, n) raises. Output [j] holds the elements tagged [j]. *)
Fixpoint tag_elements {A : Type} (fn : A -> Z -> RandomState -> result (Z * RandomState))
    (n : Z) (l : list A) (st : RandomState) : result (list (Z * A) * RandomState) :=
  match l with
  | [] => Ok ([], st)
  | x :: rest =>
      do r <- fn x n st;
      if (0 <=? fst r) && (fst r <? n) then
        do rs <- tag_elements fn n rest (snd r);
        Ok ((fst r, x) :: fst rs, snd rs)
      else Raise (ValueError "PartitionFn specified out-of-bounds partition index")
  end.

Definition tagged_output {A : Type} (tagged : list (Z * A)) (j : Z) : list A :=
  map snd (List.filter (fun ix => fst ix =? j) tagged).

Definition partition_stage {A : Type} (fn : A -> Z -> RandomState -> result (Z * RandomState))
    (n : Z) (l : list A) (st : RandomState) : result (list (list A) * RandomState) :=
  do r <- tag_elements fn n l st;
  Ok (map (fun j => tagged_output (fst r) (Z.of_nat j)) (seq 0 (Z.to_nat n)), snd r).

(** ** Earth Engine geometry requests

    The ee client builds expressions that the backend evaluates; a geometry
    is the tree of the calls that made it. Distances are metres. *)

Inductive Geometry : Type :=
  | Point (coords : list Q)                              (* ee.Geometry.Point(coords) *)
  | Buffer (g : Geometry) (distance : Q) (maxError : Q)  (* g.buffer(distance, maxError) *)
  | Bounds (g : Geometry) (maxError : Q).                (* g.bounds(maxError) *)

(** Python's [scale * patch_size / 2] on two ints: true division. *)
Definition half_extent (scale patch_size : Z) : Q :=
  (inject_Z (scale * patch_size) / 2)%Q.

(** utils.py, lines 305-306:

      point = ee.Geometry.Point(coords)
      region = point.buffer(scale * patch_size / 2, 1).bounds(1) *)
Definition patch_region (coords : list Q) (scale patch_size : Z) : Geometry :=
  let point := Point coords in
  Bounds (Buffer point (half_extent scale patch_size) 1) 1.

(** What the backend computes for such a request, read in a metric plane
    around the point: a buffered point is the disc of that radius, the
    bounds of a disc is the square around it. The error margin handed to
    [buffer] and [bounds] bounds the backend's approximation of the disc
    and is not part of this reading. *)
Inductive Shape : Type :=
  | Dot (x y : Q)
  | Disc (x y r : Q)
  | Rect (xmin ymin xmax ymax : Q).

Fixpoint eval_geometry (g : Geometry) : option Shape :=
  match g with
  | Point [x; y] => Some (Dot x y)
  | Point _ => None
  | Buffer g' d _ =>
      match eval_geometry g' with
      | Some (Dot x y) => Some (Disc x y d)
      | Some (Disc x y r) => Some (Disc x y (r + d)%Q)
      | _ => None
      end
  | Bounds g' _ =>
      match eval_geometry g' with
      | Some (Dot x y) => Some (Rect x y x y)
      | Some (Disc x y r) => Some (Rect (x - r)%Q (y - r)%Q (x + r)%Q (y + r)%Q)
      | Some (Rect a b c d) => Some (Rect a b c d)
      | None => None
      end
  end.

Definition rect_width (s : Shape) : Q :=
  match s with Rect xmin _ xmax _ => (xmax - xmin)%Q | _ => 0%Q end.

Definition rect_height (s : Shape) : Q :=
  match s with Rect _ ymin _ ymax => (ymax - ymin)%Q | _ => 0%Q end.

Definition rect_center (s : Shape) : Q * Q :=
  match s with
  | Rect xmin ymin xmax ymax => ((xmin + xmax) / 2, (ymin + ymax) / 2)%Q
  | _ => (0, 0)%Q
  end.

Definition is_rect (s : Shape) : bool :=
  match s with Rect _ _ _ _ => true | _ => false end.

(** ** The patch download: get_patch (utils.py, lines 254-274) *)

(** The dictionary handed to [image.getDownloadURL]. *)
Record DownloadRequest : Type := mkDownloadRequest {
  req_region : Geometry;
  req_dimensions : list Z;
  req_format : string;
  req_bands : list string
}.

(** A [requests.Response]. *)
Record Response : Type := mkResponse {
  status_code : Z;
  text : string;
  content : list byte
}.

(** The other requests the workers send to Earth Engine: opening the
    session and reading the list of sample points. Each may fail. *)
Inductive EERequest : Type :=
  | InitializeSession                (* EEUtils.initialize_session *)
  | ListSize                         (* sample_locations.size().getInfo() *)
  | ListGet (index : Z)              (* sample_locations.get(index) ... .getInfo() *)
  | CollectionSize.                  (* data.size().getInfo() *)

(** The world outside the function, call by call: whether a request to
    Earth Engine is answered, what [getDownloadURL] and [requests.get]
    answer on the n-th attempt of a download, how long that attempt takes,
    the delays the retry's sleep generator yields, and what [np.load]
    makes of a body. *)
Record Backend : Type := mkBackend {
  ee_request : EERequest -> result unit;
  getDownloadURL : DownloadRequest -> nat -> result string;
  requests_get : string -> nat -> result Response;
  attempt_ms : DownloadRequest -> nat -> Z;
  sleep_ms : DownloadRequest -> list Z;
  np_load : list byte -> result Patch
}.

(** [response.raise_for_status()] of requests: an [HTTPError] for a status
    of 400 to 599, nothing otherwise. *)
Definition raise_for_status (r : Response) : result unit :=
  if (400 <=? status_code r) && (status_code r <? 500) then
    Raise (HTTPError (status_code r))
  else if (500 <=? status_code r) && (status_code r <? 600) then
    Raise (HTTPError (status_code r))
  else Ok tt.

(** One run of the body of [get_patch]; [n] numbers the attempt. *)
Definition get_patch (w : Backend) (n : nat) (region : Geometry)
    (bands : list string) (patch_size : Z) : result Patch :=
  let request := mkDownloadRequest region [patch_size; patch_size] "NPY" bands in
  do url <- getDownloadURL w request n;
  do response <- requests_get w url n;
  if status_code response =? 429 then
    Raise (TooManyRequests (text response))
  else
    do _ <- raise_for_status response;
    np_load w (content response).

(** ** google.api_core.retry.Retry(timeout=300)

    The decorator's default predicate:

      if_transient_error = if_exception_type(
          exceptions.InternalServerError,
          exceptions.TooManyRequests,
          exceptions.ServiceUnavailable,
          requests.exceptions.ConnectionError,
          requests.exceptions.ChunkedEncodingError,
          auth_exceptions.TransportError) *)
Definition if_transient_error (e : exn) : bool :=
  match e with
  | InternalServerError _ => true
  | TooManyRequests _ => true
  | ServiceUnavailable _ => true
  | ConnectionError => true
  | ChunkedEncodingError => true
  | TransportError => true
  | _ => false
  end.

(** The budget, in milliseconds. *)
Definition retry_timeout : Z := 300 * 1000.

(** [retry_target]:

      deadline = now + timeout
      for sleep in sleep_generator:
          try: return target()
          except Exception as exc:
              if not predicate(exc): raise
              last_exc = exc
          if deadline < now + sleep: raise RetryError(...) from last_exc
          time.sleep(sleep)
      raise ValueError("Sleep generator stopped yielding sleep values.")

    [target n] is the n-th call of the wrapped function and [cost n] the
    time it takes. *)
Fixpoint retry_target {A : Type} (target : nat -> result A) (cost : nat -> Z)
    (predicate : exn -> bool) (sleep_generator : list Z)
    (n : nat) (now deadline : Z) : result A :=
  match sleep_generator with
  | [] => Raise (ValueError "Sleep generator stopped yielding sleep values.")
  | sleep :: rest =>
      let now' := now + cost n in
      match target n with
      | Ok a => Ok a
      | Raise exc =>
          if negb (predicate exc) then Raise exc
          else if deadline <? now' + sleep then Raise (RetryError exc)
          else retry_target target cost predicate rest (S n) (now' + sleep) deadline
      end
  end.

Definition retry {A : Type} (timeout : Z) (target : nat -> result A) (cost : nat -> Z)
    (sleep_generator : list Z) (now : Z) : result A :=
  retry_target target cost if_transient_error sleep_generator 0 now (now + timeout).

(** [get_patch] as decorated by [@retry.Retry(timeout=300)]: the function
    the caller invokes. *)
Definition retried_get_patch (w : Backend) (now : Z) (region : Geometry)
    (bands : list string) (patch_size : Z) : result Patch :=
  let request := mkDownloadRequest region [patch_size; patch_size] "NPY" bands in
  retry retry_timeout
    (fun n => get_patch w n region bands patch_size)
    (attempt_ms w request) (sleep_ms w request) now.

(** ** EEUtils.beam_get_training_patches (utils.py, lines 240-307)

    The session is opened (line 247), then the region is built and the
    decorated [get_patch] called (lines 305-307). *)

Definition beam_get_training_patches (w : Backend) (now : Z) (coords : list Q)
    (bands : list string) (scale patch_size : Z) : result Patch :=
  do _ <- ee_request w InitializeSession;
  let region := patch_region coords scale patch_size in
  retried_get_patch w now region bands patch_size.

(** ** tf.train.Example and its wire format

    The messages of tensorflow/core/example:

      message FloatList { repeated float value = 1 [packed = true]; }
      message Feature   { oneof kind { ... FloatList float_list = 2; ... } }
      message Features  { map<string, Feature> feature = 1; }
      message Example   { Features features = 1; }

    Only the [float_list] kind is built by the serializer. *)

Record Feature : Type := mkFeature { float_list : list float32 }.

Record Example : Type := mkExample { features : gmap string Feature }.

(** *** Bytes, varints and IEEE-754 single precision *)

Definition byte_of_N (n : N) : byte :=
  match Byte.of_N (n mod 256) with
  | Some b => b
  | None => x00
  end.

(** Base-128 varint, least significant group first; a group with the high
    bit set is followed by another. A number with [fuel] or fewer bits
    needs no more than [fuel] continuation steps. *)
Fixpoint varint_loop (fuel : nat) (n : N) : list byte :=
  match fuel with
  | O => [byte_of_N n]
  | S fuel' =>
      if (n <? 128)%N then [byte_of_N n]
      else byte_of_N (128 + n mod 128) :: varint_loop fuel' (n / 128)
  end.

Definition encode_varint (n : N) : list byte :=
  varint_loop (N.to_nat (N.size n)) n.

Definition sign_bit (s : bool) : N := if s then (2 ^ 31)%N else 0%N.

(** The 32 bits of a float32: sign, 8 bits of biased exponent, 23 bits of
    fraction. A finite [m * 2^e] with [m] of 24 bits is normal, with biased
    exponent [e + 150]; a shorter [m] is subnormal. NaN is the quiet NaN. *)
Definition f32_bits (x : float32) : N :=
  match x with
  | S754_zero s => sign_bit s
  | S754_infinity s => (sign_bit s + 255 * 2 ^ 23)%N
  | S754_nan => (255 * 2 ^ 23 + 2 ^ 22)%N
  | S754_finite s m e =>
      if (2 ^ 23 <=? Npos m)%N then
        (sign_bit s + Z.to_N (e + 150) * 2 ^ 23 + (Npos m - 2 ^ 23))%N
      else (sign_bit s + Npos m)%N
  end.

(** Little-endian bytes of a 32-bit word. *)
Definition le_bytes4 (w : N) : list byte :=
  [byte_of_N w; byte_of_N (w / 2 ^ 8); byte_of_N (w / 2 ^ 16); byte_of_N (w / 2 ^ 24)].

Definition encode_floats (l : list float32) : list byte :=
  flat_map (fun x => le_bytes4 (f32_bits x)) l.

(** A length-delimited field: the tag byte (field number and wire type 2),
    the payload's length as a varint, the payload. *)
Definition encode_len_delimited (tag : byte) (payload : list byte) : list byte :=
  tag :: encode_varint (N.of_nat (length payload)) ++ payload.

(** Field 1, wire type 2, and field 2, wire type 2. *)
Definition tag1 : byte := x0a.
Definition tag2 : byte := x12.

(** A packed repeated field with no element is not written. *)
Definition encode_FloatList (v : list float32) : list byte :=
  match v with
  | [] => []
  | _ => encode_len_delimited tag1 (encode_floats v)
  end.

Definition encode_Feature (f : Feature) : list byte :=
  encode_len_delimited tag2 (encode_FloatList (float_list f)).

(** One entry of the map: key as field 1, value as field 2. *)
Definition encode_entry (e : string * Feature) : list byte :=
  encode_len_delimited tag1 (list_byte_of_string (fst e))
  ++ encode_len_delimited tag2 (encode_Feature (snd e)).

Definition encode_Features (entries : list (string * Feature)) : list byte :=
  flat_map (fun e => encode_len_delimited tag1 (encode_entry e)) entries.

(** [example.SerializeToString()]. The order in which a map's entries are
    written is the implementation's; here it is that of [map_to_list]. *)
Definition SerializeToString (ex : Example) : list byte :=
  encode_len_delimited tag1 (encode_Features (map_to_list (features ex))).

(** ** TFUtils.beam_serialize (utils.py, lines 311-322)

      features = {
          name: tf.train.Feature(
              float_list=tf.train.FloatList(value=patch[name].flatten()))
          for name in patch.dtype.names
      }
      example = tf.train.Example(features=tf.train.Features(feature=features))
      return example.SerializeToString() *)

(** The dictionary comprehension: names are visited in order, a later
    entry of the same name replacing an earlier one. *)
Fixpoint features_of (patch : Patch) (names : list string)
    (acc : gmap string Feature) : result (gmap string Feature) :=
  match names with
  | [] => Ok acc
  | name :: rest =>
      match patch_get patch name with
      | None => Raise (ValueError "no field of name")
      | Some band =>
          features_of patch rest (<[name := mkFeature (np_flatten band)]> acc)
      end
  end.

Definition beam_example (patch : Patch) : result Example :=
  do features <- features_of patch (dtype_names patch) ∅;
  Ok (mkExample features).

Definition beam_serialize (patch : Patch) : result (list byte) :=
  do example <- beam_example patch;
  Ok (SerializeToString example).

(** ** Reading a record back *)

(** Modelled from the spec: the decoder of a SerializedRecord, from
    [decode_varint] to [decode_Example]. The reader of the records is not
    part of the sources at hand; the spec fixes the framing as a sequential
    container of named float-list features, which is the wire format
    written above, so the decoder is the parser of that format. As for any
    protocol-buffers map, of two entries with one key the later stands. *)
Fixpoint decode_varint (bs : list byte) : option (N * list byte) :=
  match bs with
  | [] => None
  | b :: rest =>
      let v := Byte.to_N b in
      if (v <? 128)%N then Some (v, rest)
      else
        match decode_varint rest with
        | Some (hi, rest') => Some ((v - 128) + 128 * hi, rest')%N
        | None => None
        end
  end.

Definition decode_len_delimited (tag : byte) (bs : list byte)
    : option (list byte * list byte) :=
  match bs with
  | [] => None
  | t :: rest =>
      if Byte.eqb t tag then
        match decode_varint rest with
        | Some (len, body) =>
            if (N.to_nat len <=? length body)%nat then
              Some (take (N.to_nat len) body, drop (N.to_nat len) body)
            else None
        | None => None
        end
      else None
  end.

(** The only field of a message: nothing may follow it. *)
Definition decode_only_field (tag : byte) (bs : list byte) : option (list byte) :=
  match decode_len_delimited tag bs with
  | Some (payload, []) => Some payload
  | _ => None
  end.

Definition f32_of_bits (w : N) : float32 :=
  let s := (2 ^ 31 <=? w mod 2 ^ 32)%N in
  let ex := ((w / 2 ^ 23) mod 256)%N in
  let mant := (w mod 2 ^ 23)%N in
  if (ex =? 0)%N then
    match mant with
    | N0 => S754_zero s
    | Npos m => S754_finite s m (-149)
    end
  else if (ex =? 255)%N then
    match mant with
    | N0 => S754_infinity s
    | Npos _ => S754_nan
    end
  else
    match (mant + 2 ^ 23)%N with
    | N0 => S754_nan
    | Npos m => S754_finite s m (Z.of_N ex - 150)
    end.

Definition of_le_bytes4 (b0 b1 b2 b3 : byte) : N :=
  (Byte.to_N b0 + 2 ^ 8 * Byte.to_N b1 + 2 ^ 16 * Byte.to_N b2
   + 2 ^ 24 * Byte.to_N b3)%N.

Fixpoint decode_floats (bs : list byte) : option (list float32) :=
  match bs with
  | [] => Some []
  | b0 :: b1 :: b2 :: b3 :: rest =>
      match decode_floats rest with
      | Some l => Some (f32_of_bits (of_le_bytes4 b0 b1 b2 b3) :: l)
      | None => None
      end
  | _ => None
  end.

Definition decode_FloatList (bs : list byte) : option (list float32) :=
  match bs with
  | [] => Some []
  | _ =>
      match decode_only_field tag1 bs with
      | Some payload => decode_floats payload
      | None => None
      end
  end.

Definition decode_Feature (bs : list byte) : option Feature :=
  match decode_only_field tag2 bs with
  | Some payload => option_map mkFeature (decode_FloatList payload)
  | None => None
  end.

Definition decode_entry (bs : list byte) : option (string * Feature) :=
  match decode_len_delimited tag1 bs with
  | Some (key, rest) =>
      match decode_only_field tag2 rest with
      | Some fb => option_map (pair (string_of_list_byte key)) (decode_Feature fb)
      | None => None
      end
  | None => None
  end.

(** The entries of a [Features] message, one field after the other; each
    step consumes at least the tag, so the length of the input bounds the
    number of steps. *)
Fixpoint decode_entries (fuel : nat) (bs : list byte) : option (list (string * Feature)) :=
  match bs with
  | [] => Some []
  | _ =>
      match fuel with
      | O => None
      | S fuel' =>
          match decode_len_delimited tag1 bs with
          | Some (eb, rest) =>
              match decode_entry eb, decode_entries fuel' rest with
              | Some e, Some es => Some (e :: es)
              | _, _ => None
              end
          | None => None
          end
      end
  end.

Definition insert_entry (m : gmap string Feature) (e : string * Feature)
    : gmap string Feature := <[fst e := snd e]> m.

Definition decode_Features (bs : list byte) : option (gmap string Feature) :=
  option_map (fun es => fold_left insert_entry es ∅) (decode_entries (length bs) bs).

(** Modelled from the spec: the decoding of one SerializedRecord, the
    missing counterpart of [beam_serialize]. *)
Definition decode_Example (bs : list byte) : option Example :=
  match decode_only_field tag1 bs with
  | Some fb => option_map mkExample (decode_Features fb)
  | None => None
  end.

(** The named float arrays of a patch, each flattened in row-major order:
    what a record is expected to give back. *)
Definition named_arrays (patch : Patch) : list (string * option (list float32)) :=
  map (fun name => (name, option_map np_flatten (patch_get patch name)))
    (dtype_names patch).

(** ** Images and their band names

    Of an [ee.Image] the pipeline only depends on the names of its bands.
    [regexpRename] with a pattern for the end of the name appends the
    replacement, a suffix, to every name;
    [select] is [Image.select] for bands listed by their plain names: it
    keeps the listed bands, in the listed order, and fails on a name the
    image lacks (selectors that are regular expressions or indices are not
    modelled); [addBands] appends the bands of its argument, a
    band whose name is taken getting a numeric suffix. *)

Record Image : Type := mkImage { bandNames : list string }.

Definition regexpRename_suffix (suffix : string) (img : Image) : Image :=
  mkImage (map (fun n => String.append n suffix) (bandNames img)).

Definition name_in (n : string) (names : list string) : bool :=
  existsb (String.eqb n) names.

Definition select (names : list string) (img : Image) : result Image :=
  if forallb (fun n => name_in n (bandNames img)) names then Ok (mkImage names)
  else Raise (EEException "Image.select: pattern did not match any bands").

Fixpoint fresh_suffix (fuel : nat) (i : nat) (n : string) (taken : list string) : string :=
  let candidate := String.append n (String.append "_" (pretty i)) in
  match fuel with
  | O => candidate
  | S fuel' =>
      if name_in candidate taken then fresh_suffix fuel' (S i) n taken
      else candidate
  end.

Definition add_band (taken : list string) (n : string) : list string :=
  if name_in n taken then taken ++ [fresh_suffix (length taken) 1 n taken]
  else taken ++ [n].

Definition addBands (dst src : Image) : Image :=
  mkImage (fold_left add_band (bandNames src) (bandNames dst)).

Definition rename (names : list string) (img : Image) : Image := mkImage names.

(** ** TrainingDataGenerator (generate_training_patches.py) *)

(** The assets [load_data] reads: the sample collection (the coordinates
    of its features, in collection order) and the band names of the three
    composites and of the label image. *)
Record Assets : Type := mkAssets {
  sample_locations : list (list Q);
  composite_before : Image;
  composite_during : Image;
  composite_after : Image;
  label : Image
}.

(** The fields [__init__] sets, and those [load_data] adds. *)
Record TrainingDataGenerator : Type := mkGenerator {
  kernel_size : Z;
  grace : Z;
  scale : Z;
  include_after : bool;
  test_ratio : float64;
  validation_ratio : float64;
  sample_size : Z;
  sample_locations_list : list (list Q);
  image : Image;
  selectors : list string
}.

(** [collection.toList(count)]: at most [count] elements, from the start. *)
Definition toList (count : Z) (collection : list (list Q)) : list (list Q) :=
  take (Z.to_nat count) collection.

(** The float 0.2 of [__init__]: 0x1.999999999999ap-3. *)
Definition ratio_0_2 : float64 := S754_finite false 7205759403792794 (-55).

(** The object after [__init__] (lines 36-51) and [load_data] (lines
    53-107), for the configured FEATURES and SCALE. *)
Definition load_data (FEATURES : list string) (SCALE : Z) (include_after : bool)
    (a : Assets) : result TrainingDataGenerator :=
  let kernel_size := 128 in
  let grace := 10 in
  let test_ratio := ratio_0_2 in
  let validation_ratio := ratio_0_2 in
  let sample_size := Z.of_nat (length (sample_locations a)) in
  let sample_locations_list := toList (sample_size + grace) (sample_locations a) in
  let label := rename ["class"] (label a) in
  let before := regexpRename_suffix "_before" (composite_before a) in
  let after := regexpRename_suffix "_after" (composite_after a) in
  let during := regexpRename_suffix "_during" (composite_during a) in
  let stacked :=
    if include_after then addBands (addBands before during) after
    else addBands before during in
  do selected <- select FEATURES stacked;
  let image := addBands selected label in
  Ok (mkGenerator kernel_size grace SCALE include_after test_ratio validation_ratio
        sample_size sample_locations_list image (bandNames image)).

(** Python's [range(start, stop, step)] for a positive step. *)
Definition range (start stop step : Z) : list Z :=
  if step <=? 0 then []
  else map (fun i => start + Z.of_nat i * step)
         (seq 0 (Z.to_nat ((stop - start + step - 1) / step))).

(** The "Create range" stage (line 116): [beam.Create(range(0, self.sample_size, 1))]. *)
Definition create_range (g : TrainingDataGenerator) : list Z :=
  range 0 (sample_size g) 1.

(** [EEUtils.beam_yield_sample_points] (utils.py, lines 230-238): the
    session is opened, the size of the list is fetched for the message
    printed, then the point. [sample_locations.get(index)] fails outside
    the list; a negative index counts from the end. *)
Definition beam_yield_sample_points (w : Backend) (index : Z)
    (locations : list (list Q)) : result (list Q) :=
  do _ <- ee_request w InitializeSession;
  do _ <- ee_request w ListSize;
  do _ <- ee_request w (ListGet index);
  let i := if index <? 0 then Z.of_nat (length locations) + index else index in
  if i <? 0 then Raise (EEException "List.get: index out of range")
  else
    match locations !! Z.to_nat i with
    | Some coords => Ok coords
    | None => Raise (EEException "List.get: index out of range")
    end.

(** The three record streams handed to [WriteToTFRecord]. *)
Record Outputs : Type := mkOutputs {
  training_data : list (list byte);
  validation_data : list (list byte);
  test_data : list (list byte)
}.

(** [generate_training_patch_data] (lines 109-133). Each element's fetch
    has its own clock, started at 0. The first three stages, up to the
    decoded patches: *)
Definition fetch_stage (g : TrainingDataGenerator) (w : Backend) : result (list Patch) :=
  do points <- map_stage
                 (fun index => beam_yield_sample_points w index (sample_locations_list g))
                 (create_range g);
  map_stage (fun coords => beam_get_training_patches w 0 coords (selectors g)
                             (scale g) (kernel_size g))
    points.

Definition generate_training_patch_data (g : TrainingDataGenerator) (w : Backend)
    (st : RandomState) : result (Outputs * RandomState) :=
  do patches <- fetch_stage g w;
  let good := List.filter filter_good_patches patches in
  do records <- map_stage beam_serialize good;
  do parts <- partition_stage
                (fun element n => split_dataset element n (validation_ratio g) (test_ratio g))
                3 records st;
  match fst parts with
  | [training; validation; test] => Ok (mkOutputs training validation test, snd parts)
  | _ => Raise (ValueError "not enough values to unpack")
  end.

(** What a run leaves in the three output locations: the records of a run
    that ended well; a failed run commits no file. *)
Definition written (r : result (Outputs * RandomState)) : list (list byte) :=
  match r with
  | Ok (o, _) => training_data o ++ validation_data o ++ test_data o
  | Raise _ => []
  end.


(** ** The run, element by element, and the write stage

    The stages between "Create range" and the three writes are fused: a
    worker takes an index through all of them before the next. An
    exception of any stage ends the run there. [WriteToTFRecord] appends
    the records it receives to temporary shards; the shards are renamed
    to the output files by its finalization, which runs once every
    element has been processed. *)
Record Sinks : Type := mkSinks {
  temporary : Outputs;
  committed : Outputs
}.

Definition no_records : Outputs := mkOutputs [] [] [].

Definition write_record (j : Z) (record : list byte) (o : Outputs) : Outputs :=
  if j =? 0 then mkOutputs (training_data o ++ [record]) (validation_data o) (test_data o)
  else if j =? 1 then mkOutputs (training_data o) (validation_data o ++ [record]) (test_data o)
  else mkOutputs (training_data o) (validation_data o) (test_data o ++ [record]).

Definition finalize_write (s : Sinks) : Sinks :=
  mkSinks no_records
    (mkOutputs (training_data (committed s) ++ training_data (temporary s))
       (validation_data (committed s) ++ validation_data (temporary s))
       (test_data (committed s) ++ test_data (temporary s))).

Definition process_element (g : TrainingDataGenerator) (w : Backend) (index : Z)
    (st : RandomState) (s : Sinks) : result (RandomState * Sinks) :=
  do coords <- beam_yield_sample_points w index (sample_locations_list g);
  do patch <- beam_get_training_patches w 0 coords (selectors g) (scale g) (kernel_size g);
  if filter_good_patches patch then
    do record <- beam_serialize patch;
    do r <- split_dataset record 3 (validation_ratio g) (test_ratio g) st;
    if (0 <=? fst r) && (fst r <? 3) then
      Ok (snd r, mkSinks (write_record (fst r) record (temporary s)) (committed s))
    else Raise (ValueError "PartitionFn specified out-of-bounds partition index")
  else Ok (st, s).

Fixpoint process_elements (g : TrainingDataGenerator) (w : Backend) (indices : list Z)
    (st : RandomState) (s : Sinks) : Sinks * result RandomState :=
  match indices with
  | [] => (s, Ok st)
  | index :: rest =>
      match process_element g w index st s with
      | Raise e => (s, Raise e)
      | Ok (st', s') => process_elements g w rest st' s'
      end
  end.

(** The files and the outcome of [with beam.Pipeline(...) as pipeline]. *)
Definition run_pipeline (g : TrainingDataGenerator) (w : Backend) (st : RandomState)
    : Sinks * result RandomState :=
  let run := process_elements g w (create_range g) st (mkSinks no_records no_records) in
  match snd run with
  | Ok st' => (finalize_write (fst run), Ok st')
  | Raise e => (fst run, Raise e)
  end.

(** The records of an output, whatever the stream. *)
Definition all_records (o : Outputs) : list (list byte) :=
  training_data o ++ validation_data o ++ test_data o.

(** ** Reading aids for the statements *)

(** What [split_dataset] hands to [random.choices]: the weights, their
    running sums and their total, all computed in floats. *)
Definition split_weights (v t : float64) : list float64 :=
  [Float64.sub (Float64.sub Float64.one v) t; v; t].

Definition training_bound (v t : float64) : float64 :=
  Float64.sub (Float64.sub Float64.one v) t.

Definition validation_bound (v t : float64) : float64 :=
  Float64.add (training_bound v t) v.

Definition split_total (v t : float64) : float64 :=
  Float64.add (Float64.add (validation_bound v t) t) Float64.zero.

(** The two checks [random.choices] makes of the total. *)
Definition positive_finite_total (v t : float64) : bool :=
  negb (Float64.leb (split_total v t) Float64.zero)
  && Float64.isfinite (split_total v t).

(** The weighted draw by inversion: the draw [u] is scaled by the total
    and compared with the running sums of the weights. *)
Definition split_index (v t u : float64) : Z :=
  let x := Float64.mul u (split_total v t) in
  if Float64.ltb x (validation_bound v t) then
    if Float64.ltb x (training_bound v t) then 0 else 1
  else 2.

(** The records a tag selects, in their order. *)
Definition records_tagged {A : Type} (tags : list Z) (records : list A) (k : Z) : list A :=
  map snd (List.filter (fun ix => fst ix =? k) (combine tags records)).

(** The state of the random source after [i] more draws. *)
Definition after_draws (st : RandomState) (i : nat) : RandomState :=
  mkRandomState (draws st) (pos st + i).

(** The request [beam_get_training_patches] sends for a point. *)
Definition patch_request (coords : list Q) (bands : list string)
    (scale patch_size : Z) : DownloadRequest :=
  mkDownloadRequest (patch_region coords scale patch_size)
    [patch_size; patch_size] "NPY" bands.

(** A backend that answers a request with 429 on the attempts 0 to k - 1
    and with 200 and a loadable body on attempt k. *)
Definition rate_limited_then_ok (w : Backend) (request : DownloadRequest)
    (k : nat) (p : Patch) : Prop :=
  (forall i, (i < k)%nat ->
     exists url r,
       getDownloadURL w request i = Ok url
       /\ requests_get w url i = Ok r
       /\ status_code r = 429)
  /\ exists url r,
       getDownloadURL w request k = Ok url
       /\ requests_get w url k = Ok r
       /\ status_code r = 200
       /\ np_load w (content r) = Ok p.

(** The time taken by the attempts [n] to [n + k - 1], each followed by
    the sleep the generator yields after it. *)
Fixpoint spent (cost : nat -> Z) (sleeps : list Z) (n k : nat) : Z :=
  match k, sleeps with
  | S k', sleep :: rest => cost n + sleep + spent cost rest (S n) k'
  | _, _ => 0
  end.

(** An element of the pipeline, from its index to its decoded patch. *)
Definition element_fetch (g : TrainingDataGenerator) (w : Backend) (index : Z)
    : result Patch :=
  do coords <- beam_yield_sample_points w index (sample_locations_list g);
  beam_get_training_patches w 0 coords (selectors g) (scale g) (kernel_size g).

(** The feature the serializer builds for a band name. *)
Definition feature_of (patch : Patch) (name : string) : option Feature :=
  option_map (fun band => mkFeature (np_flatten band)) (patch_get patch name).

(** A feature whose values are all float32 values. *)
Definition feature_valid (f : Feature) : Prop :=
  Forall (fun x => valid x = true) (float_list f).

(** Linear arithmetic with divisions and remainders by constants. *)
Ltac Zify.zify_post_hook ::= Z.to_euclidean_division_equations.
(** * Part I, continued: more of the code *)

(** ** The bands [load_data] selects from

    Lines 80-82 and 91-98 of generate_training_patches.py: the composites
    renamed with their suffix and stacked, the one of [after] only when
    [include_after] is set. *)
Definition stacked_image (include_after : bool) (a : Assets) : Image :=
  let before := regexpRename_suffix "_before" (composite_before a) in
  let after := regexpRename_suffix "_after" (composite_after a) in
  let during := regexpRename_suffix "_during" (composite_during a) in
  if include_after then addBands (addBands before during) after
  else addBands before during.

(** A feature given by its plain name: letters, digits and underscores.
    [Image.select] also takes regular expressions and indices; for a plain
    name it selects the band of that very name, as [select] has it. *)
Definition plain_char (c : ascii) : bool :=
  let n := nat_of_ascii c in
  ((48 <=? n) && (n <=? 57))%nat || ((65 <=? n) && (n <=? 90))%nat
  || ((97 <=? n) && (n <=? 122))%nat || (n =? 95)%nat.

Fixpoint plain_name (s : string) : bool :=
  match s with
  | EmptyString => true
  | String c rest => plain_char c && plain_name rest
  end.

(** The last character of a band name. *)
Fixpoint last_char (s : string) : option ascii :=
  match s with
  | EmptyString => None
  | String c EmptyString => Some c
  | String _ rest => last_char rest
  end.

(** The "Yield sample points" stage of the patch pipeline (line 117). *)
Definition yield_stage (g : TrainingDataGenerator) (w : Backend) : result (list (list Q)) :=
  map_stage (fun index => beam_yield_sample_points w index (sample_locations_list g))
    (create_range g).


(** [x < y] on rationals. *)
Definition Qltb (x y : Q) : bool := negb (Qle_bool y x).

(** ** The seeded split of [load_data] (lines 61-66)

    [randomColumn("random", seed)] gives every sample a number in [0, 1);
    a sample is kept here with its coordinates and that number. *)
Record SeededSample : Type := mkSeededSample {
  coordinates : list Q;
  random_value : Q
}.

(** [ee.Filter.gt("random", validation_ratio + test_ratio)]. *)
Definition training_sample_locations (validation_ratio test_ratio : Q)
    (samples : list SeededSample) : list SeededSample :=
  List.filter (fun s => Qltb (validation_ratio + test_ratio) (random_value s)) samples.

(** [ee.Filter.lte("random", validation_ratio)]. *)
Definition validation_sample_locations (validation_ratio test_ratio : Q)
    (samples : list SeededSample) : list SeededSample :=
  List.filter (fun s => Qle_bool (random_value s) validation_ratio) samples.

(** [ee.Filter.And(ee.Filter.gt("random", validation_ratio),
                   ee.Filter.lte("random", validation_ratio + test_ratio))]. *)
Definition test_sample_locations (validation_ratio test_ratio : Q)
    (samples : list SeededSample) : list SeededSample :=
  List.filter
    (fun s => Qltb validation_ratio (random_value s)
              && Qle_bool (random_value s) (validation_ratio + test_ratio))
    samples.

(** ** [generate_training_patch_seed_data] (lines 135-158)

    The inner [_generate_data_seed]: one pipeline over one sample
    collection, from [range(0, data.size().getInfo(), 1)] and
    [data.toList(data.size())] to the records handed to
    [WriteToTFRecord]. It has no "Filter patches" stage and one output. *)
Definition _generate_data_seed (w : Backend) (data : list (list Q))
    (selectors : list string) (scale kernel_size : Z) : result (list (list byte)) :=
  do _ <- ee_request w CollectionSize;
  let size := Z.of_nat (length data) in
  do points <- map_stage
                 (fun index => beam_yield_sample_points w index (toList size data))
                 (range 0 size 1);
  do patches <- map_stage (fun coords => beam_get_training_patches w 0 coords selectors
                                           scale kernel_size)
                  points;
  map_stage beam_serialize patches.

(** The three pipelines run one after the other, each committing its own
    output: what has been written when the method ends or raises. The
    three collections are those [load_data] has filtered. *)
Record SeedRun : Type := mkSeedRun {
  seed_written : list (list (list byte));
  seed_outcome : result unit
}.

Definition generate_training_patch_seed_data (g : TrainingDataGenerator) (w : Backend)
    (training_sample_locations validation_sample_locations test_sample_locations
       : list SeededSample) : SeedRun :=
  let run := fun collection : list SeededSample =>
    _generate_data_seed w (map coordinates collection) (selectors g) (scale g)
      (kernel_size g) in
  match run training_sample_locations with
  | Raise e => mkSeedRun [] (Raise e)
  | Ok training =>
      match run validation_sample_locations with
      | Raise e => mkSeedRun [training] (Raise e)
      | Ok validation =>
          match run test_sample_locations with
          | Raise e => mkSeedRun [training; validation] (Raise e)
          | Ok test => mkSeedRun [training; validation; test] (Ok tt)
          end
      end
  end.

(** ** Exports of a collection (utils.py, lines 85-119)

    Values of keyword arguments: [None], a string, a list of names. *)
Inductive Value : Type :=
  | VNone
  | VStr (s : string)
  | VNames (names : list string).

(** [kwargs.get(key, default)]. *)
Definition kwargs_get (kwargs : gmap string Value) (key : string) (default : Value) : Value :=
  match kwargs !! key with
  | Some v => v
  | None => default
  end.

(** A feature collection: its asset and what
    [collection.first().propertyNames().getInfo()] answers for it. *)
Record Collection : Type := mkCollection {
  collection_id : string;
  first_propertyNames : result (list string)
}.

(** The tasks of [ee.batch.Export.table], with their arguments. *)
Inductive Task : Type :=
  | Export_table_toAsset (collection : Collection) (description assetId selectors : Value)
  | Export_table_toCloudStorage (collection : Collection)
      (description fileNamePrefix bucket fileFormat selectors : Value).

(** Errors of the export functions: those of the backend and Python's
    [NotImplementedError]. *)
Inductive export_exn : Type :=
  | BackendError (e : exn)
  | NotImplementedError (msg : string).

Inductive Outcome : Type :=
  | Done
  | Failed (e : export_exn).

(** [if start_training: training_task.start()], over the tasks started so
    far. *)
Definition start_task (task_start : Task -> result unit) (start_training : bool)
    (task : Task) (started : list Task) : Outcome * list Task :=
  if start_training then
    match task_start task with
    | Ok _ => (Done, started ++ [task])
    | Raise e => (Failed (BackendError e), started)
    end
  else (Done, started).

(** The arguments are evaluated before the call: the default of
    [selectors] is fetched from the backend whether or not the keyword is
    given. *)
Definition asset_task (collection : Collection) (kwargs : gmap string Value)
    (names : list string) : Task :=
  let asset_id := kwargs_get kwargs "asset_id" (VStr "myAssetId") in
  Export_table_toAsset collection
    (kwargs_get kwargs "description" (VStr "myExportTableTask"))
    asset_id
    (kwargs_get kwargs "selectors" (VNames names)).

Definition _export_collection_to_asset (task_start : Task -> result unit)
    (collection : Collection) (start_training : bool) (kwargs : gmap string Value)
    (started : list Task) : Outcome * list Task :=
  match first_propertyNames collection with
  | Raise e => (Failed (BackendError e), started)
  | Ok names => start_task task_start start_training (asset_task collection kwargs names) started
  end.

Definition cloud_storage_task (collection : Collection) (kwargs : gmap string Value)
    (names : list string) : Task :=
  let description := kwargs_get kwargs "description" (VStr "myExportTableTask") in
  Export_table_toCloudStorage collection
    description
    (match kwargs_get kwargs "file_prefix" VNone with
     | VNone => description
     | file_prefix => file_prefix
     end)
    (kwargs_get kwargs "bucket" (VStr "myBucket"))
    (kwargs_get kwargs "file_format" (VStr "TFRecord"))
    (kwargs_get kwargs "selectors" (VNames names)).

Definition _export_collection_to_cloud_storage (task_start : Task -> result unit)
    (collection : Collection) (start_training : bool) (kwargs : gmap string Value)
    (started : list Task) : Outcome * list Task :=
  match first_propertyNames collection with
  | Raise e => (Failed (BackendError e), started)
  | Ok names =>
      start_task task_start start_training (cloud_storage_task collection kwargs names) started
  end.

(** [EEUtils.export_collection_data] (lines 85-92):

      if export_type == "cloud": ...
      if export_type == "asset": ...
      else: raise NotImplementedError(...)

    The second test is an [if], not an [elif]. *)
Definition export_collection_data (task_start : Task -> result unit)
    (collection : Collection) (export_type : string) (start_training : bool)
    (kwargs : gmap string Value) (started : list Task) : Outcome * list Task :=
  let after_cloud :=
    if String.eqb export_type "cloud" then
      _export_collection_to_cloud_storage task_start collection start_training kwargs started
    else (Done, started) in
  match fst after_cloud with
  | Failed e => after_cloud
  | Done =>
      if String.eqb export_type "asset" then
        _export_collection_to_asset task_start collection start_training kwargs
          (snd after_cloud)
      else
        (Failed (NotImplementedError "Only cloud export is currently supported."),
         snd after_cloud)
  end.

(** ** ModelTrainer.prepare_output_dir (model_trainer.py, lines 139-156)

    A path is the list of its components; the file system is the set of
    the paths that exist. *)
Definition Path : Type := list string.

Inductive os_exn : Type :=
  | FileExistsError
  | FileNotFoundError.

(** [os.mkdir(path)]: the path must not exist, its parent must. *)
Definition os_mkdir (fs : gset Path) (path : Path) : os_exn + gset Path :=
  if bool_decide (path ∈ fs) then inl FileExistsError
  else if bool_decide (removelast path ∈ fs) then inr ({[ path ]} ∪ fs)
  else inl FileNotFoundError.

(** [f"trial_{self.config.MODEL_TYPE}_{today}_v{iterator}"]. *)
Definition model_dir_name (MODEL_TYPE today : string) (iterator : nat) : string :=
  String.append "trial_"
    (String.append MODEL_TYPE
       (String.append "_" (String.append today (String.append "_v" (pretty iterator))))).

(** The components pathlib makes of a relative path given as a string: it
    is cut at every separator, and empty components and single dots are
    dropped. *)
Fixpoint split_path (s current : string) : list string :=
  match s with
  | EmptyString => [current]
  | String c rest =>
      if Ascii.eqb c "/" then current :: split_path rest EmptyString
      else split_path rest (String.append current (String c EmptyString))
  end.

Definition path_parts (s : string) : list string :=
  List.filter (fun part => negb (String.eqb part "" || String.eqb part "."))
    (split_path s EmptyString).

(** A string that holds no separator. *)
Fixpoint no_separator (s : string) : bool :=
  match s with
  | EmptyString => true
  | String c rest => negb (Ascii.eqb c "/") && no_separator rest
  end.

(** [self.config.OUTPUT_DIR / self.model_dir_name]; the name starts with
    trial_, so it is a relative path. *)
Definition MODEL_SAVE_DIR (OUTPUT_DIR : Path) (MODEL_TYPE today : string)
    (iterator : nat) : Path :=
  OUTPUT_DIR ++ path_parts (model_dir_name MODEL_TYPE today iterator).

(** The loop [while True: ... except FileExistsError: iterator += 1;
    continue], [fuel] bounding its rounds; [None] when they are used up.
    Any other error of [os.mkdir] leaves the loop. The result is the last
    value of [iterator] and the file system. *)
Fixpoint prepare_output_dir_loop (fuel : nat) (fs : gset Path) (OUTPUT_DIR : Path)
    (MODEL_TYPE today : string) (iterator : nat) : option (os_exn + nat * gset Path) :=
  match fuel with
  | O => None
  | S fuel' =>
      match os_mkdir fs (MODEL_SAVE_DIR OUTPUT_DIR MODEL_TYPE today iterator) with
      | inl FileExistsError =>
          prepare_output_dir_loop fuel' fs OUTPUT_DIR MODEL_TYPE today (S iterator)
      | inl e => Some (inl e)
      | inr fs' => Some (inr (iterator, fs'))
      end
  end.

(** One round more than there are paths is enough. *)
Definition prepare_output_dir (fs : gset Path) (OUTPUT_DIR : Path)
    (MODEL_TYPE today : string) : option (os_exn + nat * gset Path) :=
  prepare_output_dir_loop (S (size fs)) fs OUTPUT_DIR MODEL_TYPE today 1.

(** ** The learning rate schedule of [start_training] (lines 270-276) *)
Record Schedule : Type := mkSchedule {
  RAMPUP_EPOCHS : Z;
  SUSTAIN_EPOCHS : Z;
  MAX_LR : Q;
  MID_LR : Q;
  MIN_LR : Q
}.

Definition lr_scheduler (config : Schedule) (epoch : Z) : Q :=
  if epoch <? RAMPUP_EPOCHS config then MAX_LR config
  else if epoch <? RAMPUP_EPOCHS config + SUSTAIN_EPOCHS config then MID_LR config
  else MIN_LR config.
(** ** Concrete inputs

    Small patches, backends and generators on which the statements of
    Part II are evaluated. *)

(** A patch of one band and two pixels, both holding the largest finite
    float32. *)
Definition overflow_patch : Patch :=
  mkPatch ["B_before"] [[[max_float]; [max_float]]].

(** Patches of 4 x 4 pixels and two bands: one holding 1.0 everywhere but
    for a NaN in its first pixel, one holding the largest finite float32
    everywhere. *)
Definition stub_names : list string := ["B_before"; "class"].

Definition constant_patch (x : float32) : Patch :=
  mkPatch stub_names (repeat (repeat [x; x] 4) 4).

Definition nan_patch : Patch :=
  mkPatch stub_names (([nan; one] :: repeat [one; one] 3) :: repeat (repeat [one; one] 4) 3).

Definition huge_patch : Patch := constant_patch max_float.

(** The bodies of the stub backends: the six bytes every NPY file starts
    with, then a tag that names the array. [np.load] rejects a body that
    does not start with them, the empty one for instance. *)
Definition npy_magic : list byte := [x93; x4e; x55; x4d; x50; x59].

Definition npy_body (tag : string) : list byte := npy_magic ++ list_byte_of_string tag.

Definition npy_tag (body : list byte) : option string :=
  match body with
  | x93 :: x4e :: x55 :: x4d :: x50 :: x59 :: rest => Some (string_of_list_byte rest)
  | _ => None
  end.

Definition stub_np_load (other : Patch) (body : list byte) : result Patch :=
  match npy_tag body with
  | None => Raise NpyLoadError
  | Some tag => if String.eqb tag "nan" then Ok nan_patch else Ok other
  end.

(** A backend that always answers 200. The request for the point of
    longitude 0 gets the patch with the NaN, every other one the patch
    [other]. *)
Definition stub_url (request : DownloadRequest) : string :=
  match req_region request with
  | Bounds (Buffer (Point (x :: _)) _ _) _ => if Qeq_bool x 0 then "nan" else "other"
  | _ => "other"
  end.

Definition stub_backend (other : Patch) : Backend :=
  mkBackend
    (fun _ => Ok tt)
    (fun request _ => Ok (stub_url request))
    (fun url _ => Ok (mkResponse 200 "OK" (npy_body url)))
    (fun _ _ => 100)
    (fun _ => [1000; 2000; 4000])
    (stub_np_load other).

(** Ten sample points, (0, 0) to (9, 9), and composites with two bands. *)
Definition ten_samples : list (list Q) :=
  map (fun i => [inject_Z (Z.of_nat i); inject_Z (Z.of_nat i)]) (seq 0 10).

Definition stub_assets (samples : list (list Q)) : Assets :=
  mkAssets samples (mkImage ["B"; "G"]) (mkImage ["B"; "G"]) (mkImage ["B"; "G"])
    (mkImage ["b1"]).

(** A random source whose draws cycle through the floats 0.1, 0.7, 0.9. *)
Definition stub_random : RandomState :=
  mkRandomState
    (fun n => match Nat.modulo n 3 with
              | O => S754_finite false 7205759403792794 (-56)
              | 1%nat => S754_finite false 6305039478318694 (-53)
              | _ => S754_finite false 8106479329266893 (-53)
              end)
    0.

(** The whole job on the ten samples: [load_data], then the pipeline. *)
Definition run_job (other : Patch) : result (Outputs * RandomState) :=
  do g <- load_data ["B_before"] 10 false (stub_assets ten_samples);
  generate_training_patch_data g (stub_backend other) stub_random.

Definition fetched_by_job (other : Patch) : result (list Patch) :=
  do g <- load_data ["B_before"] 10 false (stub_assets ten_samples);
  fetch_stage g (stub_backend other).

(** A backend that answers 429 on the attempts before the k-th and 200
    from then on; each attempt takes 100 ms and the retry sleeps as
    [sleeps] says. *)
Definition flaky_backend (k : nat) (sleeps : list Z) : Backend :=
  mkBackend
    (fun _ => Ok tt)
    (fun _ _ => Ok "https://earthengine.example/download")
    (fun _ n => if Nat.ltb n k then Ok (mkResponse 429 "Too Many Requests" [])
                else Ok (mkResponse 200 "OK" (npy_body "other")))
    (fun _ _ => 100)
    (fun _ => sleeps)
    (stub_np_load (constant_patch one)).

(** A backend that answers every request with one status and the body of
    an array. *)
Definition status_backend (status : Z) : Backend :=
  mkBackend
    (fun _ => Ok tt)
    (fun _ _ => Ok "https://earthengine.example/download")
    (fun _ _ => Ok (mkResponse status "" (npy_body "other")))
    (fun _ _ => 100)
    (fun _ => [1000; 2000; 4000])
    (stub_np_load (constant_patch one)).

(** A backend whose first attempt meets a connection error, whose second
    is answered 500 and whose third would be answered 200. *)
Definition failing_backend : Backend :=
  mkBackend
    (fun _ => Ok tt)
    (fun _ _ => Ok "https://earthengine.example/download")
    (fun _ n => match n with
                | O => Raise ConnectionError
                | 1%nat => Ok (mkResponse 500 "Internal Server Error" [])
                | _ => Ok (mkResponse 200 "OK" (npy_body "other"))
                end)
    (fun _ _ => 100)
    (fun _ => [1000; 2000; 4000])
    (stub_np_load (constant_patch one)).

(** The stub backend, but rate limited for ever on the point of longitude
    0, with sleeps of 200 s. *)
Definition exhausting_backend : Backend :=
  mkBackend
    (fun _ => Ok tt)
    (fun request _ => Ok (stub_url request))
    (fun url _ => if String.eqb url "nan" then Ok (mkResponse 429 "Too Many Requests" [])
                  else Ok (mkResponse 200 "OK" (npy_body url)))
    (fun _ _ => 100)
    (fun _ => [200000; 200000; 200000])
    (stub_np_load (constant_patch one)).

(** The stub backend, but answering 500 for the point of longitude 2. *)
Definition broken_backend : Backend :=
  mkBackend
    (fun _ => Ok tt)
    (fun request _ =>
       match req_region request with
       | Bounds (Buffer (Point (x :: _)) _ _) _ =>
           if Qeq_bool x 2 then Ok "broken" else Ok "other"
       | _ => Ok "other"
       end)
    (fun url _ => if String.eqb url "broken" then Ok (mkResponse 500 "" [])
                  else Ok (mkResponse 200 "OK" (npy_body url)))
    (fun _ _ => 100)
    (fun _ => [1000; 2000; 4000])
    (stub_np_load (constant_patch one)).

Definition exhausted_job : result (Outputs * RandomState) :=
  do g <- load_data ["B_before"] 10 false (stub_assets ten_samples);
  generate_training_patch_data g exhausting_backend stub_random.

(** A patch of one pixel with the bands the pipeline requests when the
    configured features are B_before and G_before. *)
Definition labelled_patch : Patch :=
  mkPatch ["B_before"; "G_before"; "class"] [[[one; one; zero]]].


(** Six samples with their random numbers; the first lies at longitude 0,
    where the stub backend answers with the patch holding a NaN. *)
Definition seeded_samples : list SeededSample :=
  [mkSeededSample [0; 0]%Q (1 # 10);
   mkSeededSample [1; 1]%Q (2 # 10);
   mkSeededSample [2; 2]%Q (3 # 10);
   mkSeededSample [3; 3]%Q (4 # 10);
   mkSeededSample [4; 4]%Q (5 # 10);
   mkSeededSample [5; 5]%Q (9 # 10)].

(** The same four pixels of two bands, as a patch of 2 x 2 and as one of
    1 x 4. *)
Definition square_patch : Patch :=
  mkPatch stub_names [[[one; zero]; [one; one]]; [[zero; zero]; [max_float; one]]].

Definition strip_patch : Patch :=
  mkPatch stub_names [[[one; zero]; [one; one]; [zero; zero]; [max_float; one]]].

(** A collection whose first feature has two properties, an empty one on
    which the lookup of the property names fails, and the keyword
    arguments of an export with its selectors. *)
Definition training_points : Collection :=
  mkCollection "training_sample_points" (Ok ["B_before"; "class"]).

Definition empty_points : Collection :=
  mkCollection "no_sample_points"
    (Raise (EEException "Element.propertyNames: Parameter 'element' is required.")).

Definition export_kwargs : gmap string Value :=
  {[ "bucket" := VStr "bhutan-aces";
     "selectors" := VNames ["B_before"; "class"];
     "description" := VStr "Training" ]}.

(** An output directory in which the first version of the day exists. *)
Definition trial_dirs : gset Path :=
  {[ ["out"]; ["out"; "trial_unet_2023_07_01_v1"] ]}.
(** * Part II: statements *)

(** ** float32 addition and non-finite values *)

Section Float32Facts.

Lemma isfinite_add_l (x y : float32) :
  isfinite x = false -> isfinite (add x y) = false.
Proof.
  destruct x as [sx | sx | | sx mx ex]; intros Hx; try discriminate Hx.
  - destruct y as [sy | sy | | sy my ey]; try reflexivity.
    destruct sx, sy; reflexivity.
  - destruct y; reflexivity.
Qed.

Lemma isfinite_add_r (x y : float32) :
  isfinite y = false -> isfinite (add x y) = false.
Proof.
  destruct y as [sy | sy | | sy my ey]; intros Hy; try discriminate Hy.
  - destruct x as [sx | sx | | sx mx ex]; try reflexivity.
    destruct sx, sy; reflexivity.
  - destruct x; reflexivity.
Qed.

Lemma isfinite_nan_inf (x : float32) :
  isfinite x = negb (isnan x || isinf x).
Proof. destruct x; reflexivity. Qed.

(** Whatever the order of the additions, one NaN or infinity among the
    summands makes the sum a NaN or an infinity. *)
Lemma sums_to_nonfinite (l : list float32) (s : float32) :
  sums_to l s -> forallb isfinite l = false -> isfinite s = false.
Proof.
  induction 1 as [ | x | l1 l2 s1 s2 H1 IH1 H2 IH2]; simpl; intros Hl.
  - discriminate Hl.
  - rewrite andb_true_r in Hl. exact Hl.
  - rewrite forallb_app in Hl. apply andb_false_iff in Hl as [Hl | Hl].
    + apply isfinite_add_l. auto.
    + apply isfinite_add_r. auto.
Qed.

Lemma fold_left_add_snoc (l : list float32) (x acc : float32) :
  fold_left add (l ++ [x]) acc = add (fold_left add l acc) x.
Proof. rewrite fold_left_app. reflexivity. Qed.

(** The plain loop is one such order. *)
Lemma np_sum_sums_to (a : list (list float32)) :
  sums_to (np_flatten a) (np_sum a).
Proof.
  unfold np_sum. induction (np_flatten a) as [ | x l IH] using rev_ind.
  - constructor.
  - rewrite fold_left_add_snoc. apply sums_app; [exact IH | constructor].
Qed.

(** Sums of the largest finite float32: two or more of them overflow,
    in whatever order they are added. *)
Lemma app_repeat_inv {A : Type} (x : A) (l1 l2 : list A) (n : nat) :
  l1 ++ l2 = repeat x n ->
  exists n1 n2, l1 = repeat x n1 /\ l2 = repeat x n2 /\ (n1 + n2 = n)%nat.
Proof.
  revert n. induction l1 as [ | a l1 IH]; intros n H.
  - exists O, n. simpl in H. auto.
  - destruct n as [ | n]; simpl in H; [discriminate | ].
    injection H as -> H. destruct (IH n H) as (n1 & n2 & -> & -> & <-).
    exists (S n1), n2. auto.
Qed.

Lemma sums_to_repeat_max (l : list float32) (s : float32) :
  sums_to l s ->
  forall n, l = repeat max_float n ->
    s = match n with O => zero | 1%nat => max_float | _ => inf end.
Proof.
  induction 1 as [ | x | l1 l2 s1 s2 H1 IH1 H2 IH2]; intros n Hn.
  - destruct n; [reflexivity | discriminate].
  - destruct n as [ | [ | n]]; simpl in Hn; try discriminate.
    injection Hn as ->. reflexivity.
  - destruct (app_repeat_inv _ _ _ _ Hn) as (n1 & n2 & Hl1 & Hl2 & <-).
    rewrite (IH1 n1 Hl1), (IH2 n2 Hl2).
    destruct n1 as [ | [ | n1]], n2 as [ | [ | n2]]; reflexivity.
Qed.

Lemma filter_good_patches_isfinite (p : Patch) :
  filter_good_patches p = isfinite (np_sum (view_float32 p)).
Proof.
  unfold filter_good_patches. rewrite isfinite_nan_inf.
  destruct (isnan _ || isinf _); reflexivity.
Qed.

Lemma filter_good_patches_sound (p : Patch) :
  filter_good_patches p = true -> all_finite p = true.
Proof.
  rewrite filter_good_patches_isfinite. intros Hsum.
  destruct (all_finite p) eqn:Hall; [reflexivity | ].
  pose proof (sums_to_nonfinite _ _ (np_sum_sums_to (view_float32 p)) Hall) as Hbad.
  rewrite Hbad in Hsum. discriminate Hsum.
Qed.

End Float32Facts.

(** ** Utils.filter_good_patches *)

(** C1. The validator tests the float32 sum of the patch, so it rejects
    every patch with a NaN or an infinite value, but it also rejects
    all-finite patches whose sum overflows: the patch of two pixels holding
    the largest finite float32 is well formed and all-finite, and it is
    rejected, in whatever order its values are added. *)
Theorem filter_good_patches_overflow :
  patch_wf overflow_patch = true
  /\ all_finite overflow_patch = true
  /\ np_sum (view_float32 overflow_patch) = inf
  /\ (forall s, sums_to (patch_values overflow_patch) s -> s = inf)
  /\ filter_good_patches overflow_patch = false.
Proof.
  split; [vm_compute; reflexivity | ].
  split; [vm_compute; reflexivity | ].
  split; [vm_compute; reflexivity | ].
  split; [ | vm_compute; reflexivity].
  intros s Hs. apply (sums_to_repeat_max _ s Hs 2). reflexivity.
Qed.

(** The half of the docstring that holds: a patch with a NaN or an infinite
    value anywhere, in any band, is rejected. *)
Theorem filter_good_patches_rejects_nonfinite (p : Patch) :
  all_finite p = false -> filter_good_patches p = false.
Proof.
  intros Hbad. destruct (filter_good_patches p) eqn:Hf; [ | reflexivity].
  apply filter_good_patches_sound in Hf. congruence.
Qed.

Lemma filter_good_patches_rejects_nonfinite_witness :
  all_finite nan_patch = false /\ filter_good_patches nan_patch = false.
Proof.
  split; [vm_compute; reflexivity | ].
  apply (filter_good_patches_rejects_nonfinite nan_patch). vm_compute. reflexivity.
Defined.

(** ** Utils.split_dataset and the Partition stage *)

Section SplitDataset.

Lemma Qltb_lt (x y : Q) : Qltb x y = true <-> (x < y)%Q.
Proof.
  unfold Qltb. rewrite negb_true_iff. split.
  - intros H. apply Qnot_le_lt. intros Hle. apply Qle_bool_iff in Hle. congruence.
  - intros H. destruct (Qle_bool y x) eqn:E; [ | reflexivity].
    apply Qle_bool_iff in E. exfalso. apply (Qlt_not_le _ _ H E).
Qed.

Lemma Qltb_ge (x y : Q) : Qltb x y = false <-> (y <= x)%Q.
Proof.
  unfold Qltb. rewrite negb_false_iff. apply Qle_bool_iff.
Qed.

(** The loop of [bisect] ends within [hi - lo] steps, on an index between
    [lo] and [hi]. *)
Lemma bisect_loop_ok (a : list float64) (x : float64) (fuel : nat) :
  forall lo hi : nat,
    (hi <= length a)%nat -> (hi - lo <= fuel)%nat -> (lo <= hi)%nat ->
    exists i, bisect_loop fuel a x lo hi = Ok i /\ (lo <= i <= hi)%nat.
Proof.
  induction fuel as [ | fuel IH]; intros lo hi Hhi Hfuel Hle.
  - cbn [bisect_loop]. destruct (Nat.ltb lo hi) eqn:E; [apply Nat.ltb_lt in E; lia | ].
    exists lo. split; [reflexivity | lia].
  - cbn [bisect_loop].
    destruct (Nat.ltb lo hi) eqn:E; [ | exists lo; split; [reflexivity | lia]].
    apply Nat.ltb_lt in E.
    assert (Hmid : (lo <= Nat.div (lo + hi) 2 < hi)%nat).
    { split; [apply Nat.div_le_lower_bound | apply Nat.Div0.div_lt_upper_bound]; lia. }
    destruct (lookup_lt_is_Some_2 a (Nat.div (lo + hi) 2)) as [am Ham]; [lia | ].
    rewrite Ham. destruct (Float64.ltb x am).
    + destruct (IH lo (Nat.div (lo + hi) 2)) as (i & Hi & Hr); [lia | lia | lia | ].
      exists i. split; [exact Hi | lia].
    + destruct (IH (S (Nat.div (lo + hi) 2)) hi) as (i & Hi & Hr); [lia | lia | lia | ].
      exists i. split; [exact Hi | lia].
Qed.

Lemma bisect_ok (a : list float64) (x : float64) (lo hi : nat) :
  (hi <= length a)%nat -> (lo <= hi)%nat ->
  exists i, bisect a x lo hi = Ok i /\ (lo <= i <= hi)%nat.
Proof.
  intros Hhi Hle. apply bisect_loop_ok; lia.
Qed.

(** [random.choices] returns one element of the population. *)
Lemma choices_inv {A : Type} (population : list A) (weights : list float64)
    (st st' : RandomState) (l : list A) :
  choices population weights st = Ok (l, st') ->
  exists x, l = [x] /\ In x population /\ st' = snd (random st).
Proof.
  unfold choices.
  destruct (negb _); [discriminate | ].
  destruct (last (accumulate weights)) as [last_weight | ]; [ | discriminate].
  destruct (Float64.leb _ _); [discriminate | ].
  destruct (negb _); [discriminate | ].
  destruct (random st) as [u st1] eqn:Hr. simpl.
  destruct (bisect _ _ _ _) as [i | e]; simpl; [ | discriminate].
  destruct (population !! i) as [x | ] eqn:Hx; [ | discriminate].
  intros H. injection H as <- <-. exists x. repeat split.
  apply list_elem_of_In. apply (list_elem_of_lookup_2 _ _ _ Hx).
Qed.

(** The draw, spelled out: when the total of the weights passes the two
    checks of [random.choices], the next number of the random source is
    scaled by the total and compared with the running sums. *)
Lemma split_dataset_eval {A : Type} (element : A) (n : Z) (v t : float64)
    (st : RandomState) :
  positive_finite_total v t = true ->
  split_dataset element n v t st
  = Ok (split_index v t (fst (random st)), snd (random st)).
Proof.
  unfold positive_finite_total, split_index, split_total, validation_bound, training_bound.
  intros Hchecks.
  apply andb_true_iff in Hchecks as [Hpos Hfin]. apply negb_true_iff in Hpos.
  unfold split_dataset, choices. simpl.
  rewrite Hpos, Hfin. simpl. unfold bisect. simpl.
  destruct (Float64.ltb _ (Float64.add _ v)); simpl; [ | reflexivity].
  destruct (Float64.ltb _ _); reflexivity.
Qed.

(** When a check fails, the draw raises. *)
Lemma split_dataset_raises {A : Type} (element : A) (n : Z) (v t : float64)
    (st : RandomState) :
  positive_finite_total v t = false ->
  exists msg, split_dataset element n v t st = Raise (ValueError msg).
Proof.
  unfold positive_finite_total, split_total, validation_bound, training_bound.
  intros Hchecks.
  unfold split_dataset, choices. simpl.
  destruct (Float64.leb _ Float64.zero); [eexists; reflexivity | ].
  simpl in Hchecks. rewrite Hchecks. simpl. eexists. reflexivity.
Qed.

(** Each output of the Partition stage holds the elements of one tag;
    when every tag is 0, 1 or 2 the three outputs split the input. *)
Lemma tagged_outputs_split {A : Type} (tagged : list (Z * A)) :
  Forall (fun ix => fst ix = 0 \/ fst ix = 1 \/ fst ix = 2) tagged ->
  Permutation
    (tagged_output tagged 0 ++ tagged_output tagged 1 ++ tagged_output tagged 2)
    (map snd tagged).
Proof.
  unfold tagged_output.
  induction 1 as [ | [i x] rest Hi _ IH]; simpl; [constructor | ].
  simpl in Hi. destruct Hi as [-> | [-> | ->]]; simpl.
  - constructor. exact IH.
  - rewrite <- Permutation_middle. constructor. exact IH.
  - rewrite app_assoc. rewrite <- Permutation_middle. rewrite <- app_assoc.
    constructor. exact IH.
Qed.

Lemma map_snd_combine {A B : Type} (l : list A) (l' : list B) :
  length l = length l' -> map snd (combine l l') = l'.
Proof.
  revert l'. induction l as [ | x l IH]; intros [ | y l'] H; simpl in *;
    try reflexivity; try discriminate.
  f_equal. apply IH. lia.
Qed.

Lemma split_index_range (v t u : float64) :
  split_index v t u = 0 \/ split_index v t u = 1 \/ split_index v t u = 2.
Proof.
  unfold split_index. destruct (Float64.ltb _ _); [destruct (Float64.ltb _ _) | ]; auto.
Qed.

(** The Partition stage tags the i-th record by the i-th draw from the
    state it starts in. *)
Lemma tag_elements_draws {A : Type} (v t : float64) (l : list A) :
  positive_finite_total v t = true ->
  forall st,
    tag_elements (fun e n => split_dataset e n v t) 3 l st
    = Ok (combine (map (fun i => split_index v t (draws st (pos st + i)))
                     (seq 0 (length l))) l,
          after_draws st (length l)).
Proof.
  intros Hchecks. induction l as [ | x l IH]; intros st.
  - simpl. unfold after_draws. rewrite Nat.add_0_r. destruct st. reflexivity.
  - cbn [tag_elements]. rewrite (split_dataset_eval x 3 v t st Hchecks).
    cbn [bind fst snd random].
    assert (Hrange : (0 <=? split_index v t (draws st (pos st)))
                     && (split_index v t (draws st (pos st)) <? 3) = true).
    { destruct (split_index_range v t (draws st (pos st))) as [-> | [-> | ->]];
        reflexivity. }
    rewrite Hrange, IH. cbn [bind fst snd length seq map combine pos draws].
    rewrite Nat.add_0_r. rewrite <- seq_shift, map_map.
    unfold after_draws. cbn [pos draws].
    assert (Hmap : map (fun i => split_index v t (draws st (S (pos st) + i)))
                     (seq 0 (length l))
                   = map (fun i => split_index v t (draws st (pos st + S i)))
                       (seq 0 (length l))).
    { apply map_ext. intros i. do 2 f_equal. lia. }
    assert (Hst : (S (pos st) + length l = pos st + S (length l))%nat) by lia.
    rewrite Hmap, Hst. reflexivity.
Qed.

Lemma tag_elements_split {A : Type} (v t : float64) (l : list A) (st : RandomState) :
  positive_finite_total v t = true ->
  exists tagged st',
    tag_elements (fun e n => split_dataset e n v t) 3 l st = Ok (tagged, st')
    /\ map snd tagged = l
    /\ Forall (fun ix => fst ix = 0 \/ fst ix = 1 \/ fst ix = 2) tagged
    /\ pos st' = (pos st + length l)%nat
    /\ draws st' = draws st.
Proof.
  intros Hchecks. eexists. eexists.
  split; [apply (tag_elements_draws v t l Hchecks st) | ].
  split; [ | split; [ | split; reflexivity]].
  - apply map_snd_combine. rewrite length_map, length_seq. reflexivity.
  - apply Forall_forall. intros [k x] Hin. apply list_elem_of_In, in_combine_l in Hin.
    apply in_map_iff in Hin as (i & <- & _). apply split_index_range.
Qed.

End SplitDataset.

Section SplitDatasetClaims.

(** C5. For ratios whose weights [1 - v - t], [v], [t] have a positive
    finite total in floats, as [random.choices] demands,
    [Utils.split_dataset] returns the index of a weighted draw over 0
    (train), 1 (validation) and 2 (test): the next random number, scaled by
    the total, is compared with the running sums of the three weights. The
    Partition stage sends every record to the output of the index drawn
    for it, the i-th record by the i-th draw: it splits the records into
    exactly three outputs that together hold every record once. *)
Theorem split_dataset_weighted_draw (A : Type) (records : list A) (v t : float64)
    (st : RandomState) :
  positive_finite_total v t = true ->
  (forall (element : A) (num_partitions : Z),
     split_dataset element num_partitions v t st
     = Ok (split_index v t (fst (random st)), snd (random st)))
  /\ accumulate (split_weights v t)
     = [training_bound v t; validation_bound v t; Float64.add (validation_bound v t) t]
  /\ split_total v t = Float64.add (Float64.add (validation_bound v t) t) Float64.zero
  /\ (forall u,
        (split_index v t u = 0
         <-> Float64.ltb (Float64.mul u (split_total v t)) (training_bound v t) = true
             /\ Float64.ltb (Float64.mul u (split_total v t)) (validation_bound v t) = true)
        /\ (split_index v t u = 1
            <-> Float64.ltb (Float64.mul u (split_total v t)) (training_bound v t) = false
                /\ Float64.ltb (Float64.mul u (split_total v t)) (validation_bound v t)
                   = true)
        /\ (split_index v t u = 2
            <-> Float64.ltb (Float64.mul u (split_total v t)) (validation_bound v t)
                = false))
  /\ (exists training validation test tags,
        partition_stage (fun e n => split_dataset e n v t) 3 records st
          = Ok ([training; validation; test], after_draws st (length records))
        /\ tags = map (fun i => split_index v t (draws st (pos st + i)))
                    (seq 0 (length records))
        /\ training = records_tagged tags records 0
        /\ validation = records_tagged tags records 1
        /\ test = records_tagged tags records 2
        /\ Permutation (training ++ validation ++ test) records).
Proof.
  intros Hchecks. split; [ | split; [ | split; [ | split]]].
  - intros element n. apply split_dataset_eval. exact Hchecks.
  - reflexivity.
  - reflexivity.
  - intros u. unfold split_index.
    destruct (Float64.ltb (Float64.mul u (split_total v t)) (validation_bound v t));
      destruct (Float64.ltb (Float64.mul u (split_total v t)) (training_bound v t));
      repeat split; intros; try reflexivity; try discriminate;
      match goal with H : _ /\ _ |- _ => destruct H; discriminate end.
  - pose proof (tag_elements_draws v t records Hchecks st) as Hrun.
    set (tags := map (fun i => split_index v t (draws st (pos st + i)))
                   (seq 0 (length records))) in *.
    exists (records_tagged tags records 0), (records_tagged tags records 1),
      (records_tagged tags records 2), tags.
    split; [unfold partition_stage; rewrite Hrun; reflexivity | ].
    repeat split.
    assert (Hsnd : map snd (combine tags records) = records).
    { apply map_snd_combine. unfold tags. rewrite length_map, length_seq. reflexivity. }
    rewrite <- Hsnd at 4. apply tagged_outputs_split.
    apply Forall_forall. intros [k x] Hin. apply list_elem_of_In, in_combine_l in Hin.
    apply in_map_iff in Hin as (i & <- & _). apply split_index_range.
Qed.

(** The floats 0.6 and 0.6000000000000001. *)
Lemma split_dataset_weighted_draw_witness :
  positive_finite_total ratio_0_2 ratio_0_2 = true
  /\ training_bound ratio_0_2 ratio_0_2 = S754_finite false 5404319552844596 (-53)
  /\ split_index ratio_0_2 ratio_0_2 (S754_finite false 5404319552844595 (-53)) = 0
  /\ exists training validation test st',
       partition_stage (fun e n => split_dataset e n ratio_0_2 ratio_0_2) 3
         [10; 20; 30; 40] stub_random
         = Ok ([training; validation; test], st')
       /\ training = [10; 40] /\ validation = [20] /\ test = [30].
Proof.
  split; [vm_compute; reflexivity | ].
  split; [vm_compute; reflexivity | ].
  split; [vm_compute; reflexivity | ].
  destruct (split_dataset_weighted_draw Z [10; 20; 30; 40] ratio_0_2 ratio_0_2
              stub_random eq_refl)
    as (_ & _ & _ & _ & training & validation & test & tags & Hrun & -> & -> & -> & -> & _).
  eexists _, _, _, _. split; [exact Hrun | ].
  repeat split; vm_compute; reflexivity.
Defined.

(** C10. The split index does not depend on the element nor on
    [num_partitions]: from one state of the random source the call gives
    one answer whatever these two arguments are, and an index it returns
    is 0, 1 or 2, also when [num_partitions] is not 3. *)
Theorem split_dataset_ignores_element (A B : Type) (e1 : A) (e2 : B)
    (n1 n2 : Z) (v t : float64) (st : RandomState) :
  split_dataset e1 n1 v t st = split_dataset e2 n2 v t st
  /\ (forall i st', split_dataset e1 n1 v t st = Ok (i, st') ->
        i = 0 \/ i = 1 \/ i = 2).
Proof.
  split; [reflexivity | ].
  intros i st'. unfold split_dataset.
  destruct (choices [0; 1; 2] _ st) as [[l st1] | e] eqn:Hc; simpl; [ | discriminate].
  apply choices_inv in Hc as (x & -> & Hin & ->). simpl.
  intros H. injection H as <- <-.
  simpl in Hin. intuition.
Qed.

End SplitDatasetClaims.

(** ** The raster region of a patch *)

Section PatchRegion.

Lemma inject_Z_pos_product (s p : Z) :
  0 < s -> 0 < p -> (0 < inject_Z (s * p))%Q.
Proof.
  intros Hs Hp. unfold Qlt. simpl. nia.
Qed.



End PatchRegion.

(** ** The Enumerate stage *)

Section Enumerate.

Lemma range_step_one (n : nat) :
  range 0 (Z.of_nat n) 1 = map Z.of_nat (seq 0 n).
Proof.
  unfold range. simpl.
  replace (Z.of_nat n - 0 + 1 - 1) with (Z.of_nat n) by lia.
  rewrite Z.div_1_r, Nat2Z.id.
  apply map_ext. intros i. lia.
Qed.

Lemma take_all {A : Type} (l : list A) (n : nat) :
  (length l <= n)%nat -> take n l = l.
Proof. intros H. apply firstn_all2. exact H. Qed.

Lemma load_data_inv (FEATURES : list string) (SCALE : Z) (after : bool)
    (a : Assets) (g : TrainingDataGenerator) :
  load_data FEATURES SCALE after a = Ok g ->
  sample_size g = Z.of_nat (length (sample_locations a))
  /\ grace g = 10
  /\ kernel_size g = 128
  /\ scale g = SCALE
  /\ validation_ratio g = ratio_0_2
  /\ test_ratio g = ratio_0_2
  /\ sample_locations_list g
       = toList (Z.of_nat (length (sample_locations a)) + 10) (sample_locations a)
  /\ selectors g = bandNames (image g).
Proof.
  unfold load_data. destruct (select _ _) as [selected | e]; simpl; [ | discriminate].
  intros H. injection H as <-. simpl. repeat split.
Qed.

(** C4, as the code has it. The Enumerate stage creates one task per index
    of [0, sampleCount): the indices 0 to N - 1 of the N loaded samples,
    each once. The grace only pads the length asked of [toList], which
    returns the N samples all the same. *)
Theorem create_range_is_sample_range (FEATURES : list string) (SCALE : Z)
    (after : bool) (a : Assets) (g : TrainingDataGenerator) :
  load_data FEATURES SCALE after a = Ok g ->
  create_range g = map Z.of_nat (seq 0 (length (sample_locations a)))
  /\ length (create_range g) = length (sample_locations a)
  /\ NoDup (create_range g)
  /\ (forall i : Z, In i (create_range g) <-> 0 <= i < sample_size g)
  /\ sample_locations_list g = toList (sample_size g + grace g) (sample_locations a)
  /\ sample_locations_list g = sample_locations a.
Proof.
  intros Hload.
  destruct (load_data_inv _ _ _ _ _ Hload) as (Hsize & Hgrace & _ & _ & _ & _ & Hlist & _).
  assert (Hrange : create_range g = map Z.of_nat (seq 0 (length (sample_locations a)))).
  { unfold create_range. rewrite Hsize. apply range_step_one. }
  split; [exact Hrange | ].
  split; [rewrite Hrange, length_map, length_seq; reflexivity | ].
  split.
  { rewrite Hrange.
    change (NoDup (Z.of_nat <$> seq 0 (length (sample_locations a)))).
    apply NoDup_fmap_2; [apply Nat2Z.inj' | apply NoDup_seq]. }
  split.
  { intros i. rewrite Hrange, Hsize, in_map_iff. split.
    - intros (k & <- & Hk). apply in_seq in Hk. lia.
    - intros Hi. exists (Z.to_nat i). split; [lia | ]. apply in_seq. lia. }
  split.
  { rewrite Hlist, Hsize, Hgrace. reflexivity. }
  rewrite Hlist. unfold toList. apply take_all. lia.
Qed.

Lemma create_range_is_sample_range_witness :
  exists g,
    load_data ["B_before"] 10 false (stub_assets ten_samples) = Ok g
    /\ create_range g = [0; 1; 2; 3; 4; 5; 6; 7; 8; 9]
    /\ sample_locations_list g = ten_samples.
Proof.
  eexists. split; [reflexivity | ].
  destruct (create_range_is_sample_range ["B_before"] 10 false (stub_assets ten_samples) _
              eq_refl) as (Hrange & _ & _ & _ & _ & Hlist).
  split; [exact Hrange | exact Hlist].
Defined.

(** Against C4 as stated: with three samples and the grace of 10, the
    indices 3 to 12 get no task. *)
Lemma create_range_excludes_grace :
  exists g,
    load_data ["B_before"] 10 false (stub_assets (take 3 ten_samples)) = Ok g
    /\ sample_size g = 3 /\ grace g = 10
    /\ create_range g = [0; 1; 2]
    /\ ~ In 3 (create_range g)
    /\ create_range g <> range 0 (sample_size g + grace g) 1.
Proof.
  eexists. split; [reflexivity | ]. simpl.
  repeat split; try reflexivity.
  - vm_compute. intuition discriminate.
  - vm_compute. discriminate.
Qed.

End Enumerate.

(** ** get_patch and its retry *)

Section Retry.

Lemma get_patch_rate_limited (w : Backend) (n : nat) (region : Geometry)
    (bands : list string) (patch_size : Z) (url : string) (r : Response) :
  getDownloadURL w (mkDownloadRequest region [patch_size; patch_size] "NPY" bands) n = Ok url ->
  requests_get w url n = Ok r ->
  status_code r = 429 ->
  get_patch w n region bands patch_size = Raise (TooManyRequests (text r)).
Proof.
  intros Hurl Hget Hs. unfold get_patch. rewrite Hurl. simpl. rewrite Hget. simpl.
  rewrite Hs. reflexivity.
Qed.

Lemma get_patch_http_error (w : Backend) (n : nat) (region : Geometry)
    (bands : list string) (patch_size : Z) (url : string) (r : Response) :
  getDownloadURL w (mkDownloadRequest region [patch_size; patch_size] "NPY" bands) n = Ok url ->
  requests_get w url n = Ok r ->
  400 <= status_code r < 600 -> status_code r <> 429 ->
  get_patch w n region bands patch_size = Raise (HTTPError (status_code r)).
Proof.
  intros Hurl Hget Hs Hne. unfold get_patch. rewrite Hurl. simpl. rewrite Hget. simpl.
  destruct (status_code r =? 429) eqn:E; [apply Z.eqb_eq in E; contradiction | ].
  unfold raise_for_status.
  destruct ((400 <=? status_code r) && (status_code r <? 500)) eqn:E4; [reflexivity | ].
  destruct ((500 <=? status_code r) && (status_code r <? 600)) eqn:E5; [reflexivity | ].
  exfalso. apply andb_false_iff in E4, E5. lia.
Qed.

Lemma get_patch_success (w : Backend) (n : nat) (region : Geometry)
    (bands : list string) (patch_size : Z) (url : string) (r : Response) :
  getDownloadURL w (mkDownloadRequest region [patch_size; patch_size] "NPY" bands) n = Ok url ->
  requests_get w url n = Ok r ->
  status_code r < 400 \/ 600 <= status_code r ->
  get_patch w n region bands patch_size = np_load w (content r).
Proof.
  intros Hurl Hget Hs. unfold get_patch. rewrite Hurl. simpl. rewrite Hget. simpl.
  destruct (status_code r =? 429) eqn:E; [apply Z.eqb_eq in E; lia | ].
  unfold raise_for_status.
  destruct ((400 <=? status_code r) && (status_code r <? 500)) eqn:E4;
    [apply andb_true_iff in E4; lia | ].
  destruct ((500 <=? status_code r) && (status_code r <? 600)) eqn:E5;
    [apply andb_true_iff in E5; lia | ].
  reflexivity.
Qed.

Lemma spent_nonneg (cost : nat -> Z) (sleeps : list Z) :
  (forall i, 0 <= cost i) -> Forall (fun s => 0 <= s) sleeps ->
  forall n k, 0 <= spent cost sleeps n k.
Proof.
  intros Hcost Hsleeps. induction Hsleeps as [ | s rest Hs _ IH]; intros n k.
  - destruct k; simpl; lia.
  - destruct k as [ | k]; simpl; [lia | ].
    specialize (IH (S n) k). specialize (Hcost n). lia.
Qed.

(** An exception the predicate rejects leaves the wrapper at once. *)
Lemma retry_target_not_transient {A : Type} (target : nat -> result A)
    (cost : nat -> Z) (sleep : Z) (rest : list Z) (n : nat) (now deadline : Z) (e : exn) :
  target n = Raise e -> if_transient_error e = false ->
  retry_target target cost if_transient_error (sleep :: rest) n now deadline = Raise e.
Proof.
  intros Ht He. simpl. rewrite Ht, He. reflexivity.
Qed.

(** Within the budget: the first k calls fail with retryable exceptions,
    the k attempts and sleeps fit before the deadline, and the next call
    returns or raises an exception that is not retryable. The wrapper ends
    with the outcome of that call. *)
Lemma retry_target_settles {A : Type} (target : nat -> result A) (cost : nat -> Z)
    (r : result A) :
  (forall i, 0 <= cost i) ->
  (forall e, r = Raise e -> if_transient_error e = false) ->
  forall (sleeps : list Z) (k n : nat) (now deadline : Z),
    Forall (fun s => 0 <= s) sleeps ->
    (k < length sleeps)%nat ->
    (forall i, (i < k)%nat ->
       exists e, target (n + i)%nat = Raise e /\ if_transient_error e = true) ->
    target (n + k)%nat = r ->
    now + spent cost sleeps n k <= deadline ->
    retry_target target cost if_transient_error sleeps n now deadline = r.
Proof.
  intros Hcost Hfinal sleeps.
  induction sleeps as [ | s rest IH]; intros k n now deadline Hs Hlen Hfail Hend Hfit.
  - simpl in Hlen. lia.
  - apply Forall_cons in Hs as [Hs0 Hrest]. destruct k as [ | k].
    + simpl. rewrite Nat.add_0_r in Hend. rewrite Hend.
      destruct r as [a | e]; [reflexivity | ].
      rewrite (Hfinal e eq_refl). reflexivity.
    + destruct (Hfail O) as (e & He & Hpred); [lia | ].
      rewrite Nat.add_0_r in He. simpl. rewrite He, Hpred. simpl.
      simpl in Hfit.
      pose proof (spent_nonneg cost rest Hcost Hrest (S n) k) as Hnn.
      destruct (deadline <? now + cost n + s) eqn:E; [apply Z.ltb_lt in E; lia | ].
      apply (IH k (S n)).
      * exact Hrest.
      * simpl in Hlen. lia.
      * intros i Hi. destruct (Hfail (S i)) as (e' & He' & Hp'); [lia | ].
        exists e'. split; [ | exact Hp'].
        replace (S n + i)%nat with (n + S i)%nat by lia. exact He'.
      * replace (S n + k)%nat with (n + S k)%nat by lia. exact Hend.
      * lia.
Qed.

(** Beyond the budget: the deadline falls before the end of the k-th
    sleep, so the wrapper gives up with a [RetryError] that carries the
    last retryable exception. *)
Lemma retry_target_exceeded {A : Type} (target : nat -> result A) (cost : nat -> Z) :
  (forall i, 0 <= cost i) ->
  forall (sleeps : list Z) (k n : nat) (now deadline : Z),
    Forall (fun s => 0 <= s) sleeps ->
    (k <= length sleeps)%nat ->
    (forall i, (i < k)%nat ->
       exists e, target (n + i)%nat = Raise e /\ if_transient_error e = true) ->
    now <= deadline ->
    deadline < now + spent cost sleeps n k ->
    exists j e, (j < k)%nat /\ target (n + j)%nat = Raise e
      /\ retry_target target cost if_transient_error sleeps n now deadline
           = Raise (RetryError e).
Proof.
  intros Hcost sleeps. induction sleeps as [ | s rest IH]; intros k n now deadline Hs Hlen Hfail Hnow Hover.
  - destruct k; simpl in Hover; lia.
  - apply Forall_cons in Hs as [Hs0 Hrest]. destruct k as [ | k]; [simpl in Hover; lia | ].
    destruct (Hfail O) as (e & He & Hpred); [lia | ].
    rewrite Nat.add_0_r in He. simpl. rewrite He, Hpred. simpl.
    simpl in Hover.
    destruct (deadline <? now + cost n + s) eqn:E.
    + exists O, e. split; [lia | ]. rewrite Nat.add_0_r. split; [exact He | reflexivity].
    + apply Z.ltb_ge in E.
      destruct (IH k (S n) (now + cost n + s) deadline) as (j & e' & Hj & He' & Hrun).
      * exact Hrest.
      * simpl in Hlen. lia.
      * intros i Hi. destruct (Hfail (S i)) as (e'' & He'' & Hp''); [lia | ].
        exists e''. split; [ | exact Hp''].
        replace (S n + i)%nat with (n + S i)%nat by lia. exact He''.
      * exact E.
      * lia.
      * exists (S j), e'. split; [lia | ]. split; [ | exact Hrun].
        replace (n + S j)%nat with (S n + j)%nat by lia. exact He'.
Qed.

End Retry.

Section RetryClaims.

Lemma if_transient_error_iff (e : exn) :
  if_transient_error e = true
  <-> (exists txt, e = TooManyRequests txt)
      \/ (exists txt, e = InternalServerError txt)
      \/ (exists txt, e = ServiceUnavailable txt)
      \/ e = ConnectionError \/ e = ChunkedEncodingError \/ e = TransportError.
Proof.
  split.
  - destruct e; simpl; intros H; try discriminate H; eauto 7.
  - intros [[txt ->] | [[txt ->] | [[txt ->] | [-> | [-> | ->]]]]]; reflexivity.
Qed.

Lemma rate_limited_attempts (w : Backend) (coords : list Q) (bands : list string)
    (scale patch_size : Z) (k : nat) (p : Patch) :
  rate_limited_then_ok w (patch_request coords bands scale patch_size) k p ->
  (forall i, (i < k)%nat ->
     exists e, get_patch w (0 + i) (patch_region coords scale patch_size) bands patch_size
                 = Raise e
               /\ if_transient_error e = true
               /\ exists txt, e = TooManyRequests txt)
  /\ get_patch w (0 + k) (patch_region coords scale patch_size) bands patch_size = Ok p.
Proof.
  intros [Hfail (url & r & Hurl & Hget & Hs & Hload)]. split.
  - intros i Hi. destruct (Hfail i Hi) as (url' & r' & Hurl' & Hget' & Hs').
    exists (TooManyRequests (text r')). split; [ | split; [reflexivity | eauto]].
    apply (get_patch_rate_limited w i _ bands patch_size url' r' Hurl' Hget' Hs').
  - rewrite <- Hload.
    apply (get_patch_success w k _ bands patch_size url r Hurl Hget). lia.
Qed.

(** C2, as the code has it. One attempt raises [TooManyRequests] on a 429
    answer and [HTTPError] on any other answer with a status from 400 to
    599; an answer with any other status has its body loaded. The
    decorated function retries exactly the exceptions of the default
    predicate: rate limiting, the two other server conditions of
    api_core, and the transient network errors. Whatever the attempt, an
    exception outside this list leaves the wrapper at once and a returned
    patch ends it: after k retried failures that fit into the budget, the
    wrapper ends with the outcome of attempt k. Its budget is 300 s:
    against a backend that is rate limited on the first k attempts and
    then answers, the wrapper returns the patch when the k attempts and
    the sleeps after them take at most 300 s, and raises [RetryError]
    when they take more. *)
Theorem get_patch_retry_contract (w : Backend) (coords : list Q)
    (bands : list string) (scale patch_size now : Z) :
  (forall n url r,
     getDownloadURL w (patch_request coords bands scale patch_size) n = Ok url ->
     requests_get w url n = Ok r ->
     (status_code r = 429 ->
        get_patch w n (patch_region coords scale patch_size) bands patch_size
          = Raise (TooManyRequests (text r)))
     /\ (400 <= status_code r < 600 -> status_code r <> 429 ->
           get_patch w n (patch_region coords scale patch_size) bands patch_size
             = Raise (HTTPError (status_code r)))
     /\ (status_code r < 400 \/ 600 <= status_code r ->
           get_patch w n (patch_region coords scale patch_size) bands patch_size
             = np_load w (content r)))
  /\ (forall e, if_transient_error e = true
                <-> (exists txt, e = TooManyRequests txt)
                    \/ (exists txt, e = InternalServerError txt)
                    \/ (exists txt, e = ServiceUnavailable txt)
                    \/ e = ConnectionError \/ e = ChunkedEncodingError
                    \/ e = TransportError)
  /\ (forall (k : nat) (outcome : result Patch),
        (forall i, 0 <= attempt_ms w (patch_request coords bands scale patch_size) i) ->
        Forall (fun s => 0 <= s) (sleep_ms w (patch_request coords bands scale patch_size)) ->
        (k < length (sleep_ms w (patch_request coords bands scale patch_size)))%nat ->
        (forall i, (i < k)%nat ->
           exists e,
             get_patch w i (patch_region coords scale patch_size) bands patch_size = Raise e
             /\ if_transient_error e = true) ->
        get_patch w k (patch_region coords scale patch_size) bands patch_size = outcome ->
        (forall e, outcome = Raise e -> if_transient_error e = false) ->
        spent (attempt_ms w (patch_request coords bands scale patch_size))
          (sleep_ms w (patch_request coords bands scale patch_size)) 0 k
        <= retry_timeout ->
        retried_get_patch w now (patch_region coords scale patch_size) bands patch_size
        = outcome)
  /\ (forall k p,
        rate_limited_then_ok w (patch_request coords bands scale patch_size) k p ->
        (forall i, 0 <= attempt_ms w (patch_request coords bands scale patch_size) i) ->
        Forall (fun s => 0 <= s) (sleep_ms w (patch_request coords bands scale patch_size)) ->
        (k < length (sleep_ms w (patch_request coords bands scale patch_size)))%nat ->
        (spent (attempt_ms w (patch_request coords bands scale patch_size))
           (sleep_ms w (patch_request coords bands scale patch_size)) 0 k
         <= retry_timeout ->
         retried_get_patch w now (patch_region coords scale patch_size) bands patch_size
         = Ok p)
        /\ (retry_timeout
            < spent (attempt_ms w (patch_request coords bands scale patch_size))
                (sleep_ms w (patch_request coords bands scale patch_size)) 0 k ->
            exists txt,
              retried_get_patch w now (patch_region coords scale patch_size) bands patch_size
              = Raise (RetryError (TooManyRequests txt))))
  /\ (ee_request w InitializeSession = Ok tt ->
      beam_get_training_patches w now coords bands scale patch_size
      = retried_get_patch w now (patch_region coords scale patch_size) bands patch_size).
Proof.
  split; [ | split; [ | split; [ | split]]].
  - intros n url r Hurl Hget. split; [ | split].
    + apply (get_patch_rate_limited w n _ bands patch_size url r Hurl Hget).
    + apply (get_patch_http_error w n _ bands patch_size url r Hurl Hget).
    + apply (get_patch_success w n _ bands patch_size url r Hurl Hget).
  - apply if_transient_error_iff.
  - intros k outcome Hcost Hsleeps Hlen Hfail Hend Hfinal Hfit.
    unfold retried_get_patch, retry.
    fold (patch_request coords bands scale patch_size).
    apply (retry_target_settles _ _ outcome Hcost Hfinal _ k 0 now); try assumption.
    lia.
  - intros k p Hbackend Hcost Hsleeps Hlen.
    destruct (rate_limited_attempts w coords bands scale patch_size k p Hbackend)
      as [Hfail Hok].
    unfold retried_get_patch, retry.
    fold (patch_request coords bands scale patch_size). split.
    + intros Hfit.
      apply (retry_target_settles _ _ (Ok p) Hcost ltac:(discriminate) _ k 0 now);
        try assumption.
      * intros i Hi. destruct (Hfail i Hi) as (e & He & Hp & _). eauto.
      * lia.
    + intros Hover.
      destruct (retry_target_exceeded
                  (fun n => get_patch w n (patch_region coords scale patch_size) bands patch_size)
                  _ Hcost _ k 0 now (now + retry_timeout) Hsleeps)
        as (j & e & Hj & He & Hrun).
      * lia.
      * intros i Hi. destruct (Hfail i Hi) as (e & He & Hp & _). eauto.
      * unfold retry_timeout. lia.
      * lia.
      * destruct (Hfail j Hj) as (e' & He' & _ & txt & ->).
        rewrite He' in He. injection He as <-. exists txt. exact Hrun.
  - intros Hsession. unfold beam_get_training_patches. rewrite Hsession. reflexivity.
Qed.

Lemma flaky_backend_rate_limited (k : nat) (sleeps : list Z) (request : DownloadRequest) :
  rate_limited_then_ok (flaky_backend k sleeps) request k (constant_patch one).
Proof.
  split.
  - intros i Hi. eexists _, _. split; [reflexivity | ]. simpl.
    apply Nat.ltb_lt in Hi. rewrite Hi. split; reflexivity.
  - eexists _, _. split; [reflexivity | ]. simpl.
    rewrite Nat.ltb_irrefl. repeat split; reflexivity.
Defined.

Lemma get_patch_retry_contract_witness :
  retried_get_patch (flaky_backend 2 [1000; 2000; 4000]) 0 (patch_region [0; 0]%Q 10 4)
    stub_names 4
    = Ok (constant_patch one)
  /\ (exists txt,
        retried_get_patch (flaky_backend 2 [200000; 200000; 1]) 0
          (patch_region [0; 0]%Q 10 4) stub_names 4
        = Raise (RetryError (TooManyRequests txt)))
  /\ retried_get_patch failing_backend 0 (patch_region [0; 0]%Q 10 4) stub_names 4
     = Raise (HTTPError 500).
Proof.
  split; [ | split].
  - refine (proj1 (proj1 (proj2 (proj2 (proj2
              (get_patch_retry_contract (flaky_backend 2 [1000; 2000; 4000]) [0; 0]%Q
                 stub_names 10 4 0))))
              2%nat (constant_patch one) (flaky_backend_rate_limited _ _ _) _ _ _) _).
    + intros i. simpl. lia.
    + simpl. repeat constructor; lia.
    + simpl. lia.
    + vm_compute. discriminate.
  - refine (proj2 (proj1 (proj2 (proj2 (proj2
              (get_patch_retry_contract (flaky_backend 2 [200000; 200000; 1]) [0; 0]%Q
                 stub_names 10 4 0))))
              2%nat (constant_patch one) (flaky_backend_rate_limited _ _ _) _ _ _) _).
    + intros i. simpl. lia.
    + simpl. repeat constructor; lia.
    + simpl. lia.
    + vm_compute. reflexivity.
  - refine (proj1 (proj2 (proj2
              (get_patch_retry_contract failing_backend [0; 0]%Q stub_names 10 4 0)))
              1%nat (Raise (HTTPError 500)) _ _ _ _ _ _ _).
    + intros i. simpl. lia.
    + simpl. repeat constructor; lia.
    + simpl. lia.
    + intros i Hi. assert (i = 0%nat) as -> by lia.
      exists ConnectionError. split; reflexivity.
    + reflexivity.
    + intros e He. injection He as <-. reflexivity.
    + vm_compute. discriminate.
Defined.

(** Against C2 as stated: an answer of status 300 is neither a success
    (2xx) nor rate limiting, yet [raise_for_status] raises nothing for it:
    the body, here that of an array, is loaded and the call returns the
    patch, the decorated function too. *)
Lemma get_patch_redirect_status_returns :
  ~ (200 <= 300 < 300) /\ 300 <> 429
  /\ raise_for_status (mkResponse 300 "" (npy_body "other")) = Ok tt
  /\ np_load (status_backend 300) [] = Raise NpyLoadError
  /\ get_patch (status_backend 300) 0 (patch_region [0; 0]%Q 10 4) stub_names 4
       = Ok (constant_patch one)
  /\ retried_get_patch (status_backend 300) 0 (patch_region [0; 0]%Q 10 4) stub_names 4
       = Ok (constant_patch one)
  /\ beam_get_training_patches (status_backend 300) 0 [0; 0]%Q stub_names 10 4
       = Ok (constant_patch one).
Proof.
  split; [lia | ]. split; [lia | ]. repeat split; vm_compute; reflexivity.
Qed.

End RetryClaims.

(** ** The stages of the pipeline *)

Section Stages.

Lemma map_stage_in {A B : Type} (f : A -> result B) (l : list A) (ys : list B) (y : B) :
  map_stage f l = Ok ys -> In y ys -> exists x, In x l /\ f x = Ok y.
Proof.
  revert ys. induction l as [ | x l IH]; simpl; intros ys Hrun Hy.
  - injection Hrun as <-. destruct Hy.
  - destruct (f x) as [y0 | e] eqn:Hx; simpl in Hrun; [ | discriminate].
    destruct (map_stage f l) as [ys0 | e]; simpl in Hrun; [ | discriminate].
    injection Hrun as <-. destruct Hy as [<- | Hy].
    + exists x. auto.
    + destruct (IH ys0 eq_refl Hy) as (x' & Hin & Hx'). exists x'. auto.
Qed.

Lemma map_stage_all {A B : Type} (f : A -> result B) (l : list A) (ys : list B) (x : A) :
  map_stage f l = Ok ys -> In x l -> exists y, f x = Ok y /\ In y ys.
Proof.
  revert ys. induction l as [ | x0 l IH]; simpl; intros ys Hrun Hx; [destruct Hx | ].
  destruct (f x0) as [y0 | e] eqn:Hx0; simpl in Hrun; [ | discriminate].
  destruct (map_stage f l) as [ys0 | e]; simpl in Hrun; [ | discriminate].
  injection Hrun as <-. destruct Hx as [<- | Hx].
  - exists y0. simpl. auto.
  - destruct (IH ys0 eq_refl Hx) as (y & Hy & Hin). exists y. simpl. auto.
Qed.

Lemma map_stage_length {A B : Type} (f : A -> result B) (l : list A) (ys : list B) :
  map_stage f l = Ok ys -> length ys = length l.
Proof.
  revert ys. induction l as [ | x l IH]; simpl; intros ys Hrun.
  - injection Hrun as <-. reflexivity.
  - destruct (f x) as [y0 | e]; simpl in Hrun; [ | discriminate].
    destruct (map_stage f l) as [ys0 | e]; simpl in Hrun; [ | discriminate].
    injection Hrun as <-. simpl. f_equal. apply IH. reflexivity.
Qed.

(** A stage ends well exactly when every element does. *)
Lemma map_stage_total {A B : Type} (f : A -> result B) (l : list A) :
  (forall x, In x l -> exists y, f x = Ok y) -> exists ys, map_stage f l = Ok ys.
Proof.
  induction l as [ | x l IH]; simpl; intros Hall.
  - eauto.
  - destruct (Hall x) as (y & Hy); [auto | ]. rewrite Hy. simpl.
    destruct IH as (ys & Hys); [intros x' Hx'; apply Hall; auto | ].
    rewrite Hys. simpl. eauto.
Qed.

(** The patches the first stages deliver are those of the elements. *)
Lemma fetch_stage_in (g : TrainingDataGenerator) (w : Backend) (patches : list Patch)
    (patch : Patch) :
  fetch_stage g w = Ok patches -> In patch patches ->
  exists index, In index (create_range g) /\ element_fetch g w index = Ok patch.
Proof.
  unfold fetch_stage. intros Hrun Hp.
  destruct (map_stage _ (create_range g)) as [points | e] eqn:Hpoints; simpl in Hrun;
    [ | discriminate].
  destruct (map_stage_in _ _ _ _ Hrun Hp) as (coords & Hc & Hfetch).
  destruct (map_stage_in _ _ _ _ Hpoints Hc) as (index & Hi & Hyield).
  exists index. split; [exact Hi | ].
  unfold element_fetch. rewrite Hyield. exact Hfetch.
Qed.

Lemma fetch_stage_all (g : TrainingDataGenerator) (w : Backend) (patches : list Patch)
    (index : Z) :
  fetch_stage g w = Ok patches -> In index (create_range g) ->
  exists patch, element_fetch g w index = Ok patch /\ In patch patches.
Proof.
  unfold fetch_stage. intros Hrun Hi.
  destruct (map_stage _ (create_range g)) as [points | e] eqn:Hpoints; simpl in Hrun;
    [ | discriminate].
  destruct (map_stage_all _ _ _ _ Hpoints Hi) as (coords & Hyield & Hc).
  destruct (map_stage_all _ _ _ _ Hrun Hc) as (patch & Hfetch & Hp).
  exists patch. split; [ | exact Hp].
  unfold element_fetch. rewrite Hyield. exact Hfetch.
Qed.

Lemma tag_elements_elements {A : Type}
    (fn : A -> Z -> RandomState -> result (Z * RandomState)) (n : Z) (l : list A)
    (st st' : RandomState) (tagged : list (Z * A)) :
  tag_elements fn n l st = Ok (tagged, st') -> map snd tagged = l.
Proof.
  revert st tagged. induction l as [ | x l IH]; simpl; intros st tagged Hrun.
  - injection Hrun as <- <-. reflexivity.
  - destruct (fn x n st) as [[i st1] | e]; simpl in Hrun; [ | discriminate].
    destruct ((0 <=? i) && (i <? n)); [ | discriminate].
    destruct (tag_elements fn n l st1) as [[tagged0 st2] | e] eqn:Hrest; simpl in Hrun;
      [ | discriminate].
    injection Hrun as <- <-. simpl. f_equal. apply (IH st1). exact Hrest.
Qed.

Lemma tagged_output_in {A : Type} (tagged : list (Z * A)) (j : Z) (x : A) :
  In x (tagged_output tagged j) -> In x (map snd tagged).
Proof.
  unfold tagged_output. rewrite !in_map_iff.
  intros ([i y] & Hx & Hin). apply filter_In in Hin as [Hin _].
  exists (i, y). auto.
Qed.

(** Every record of a run that ended well is the serialization of a patch
    that was fetched for an enumerated index and passed the validator. *)
Lemma written_records (g : TrainingDataGenerator) (w : Backend) (st : RandomState)
    (rec : list byte) :
  In rec (written (generate_training_patch_data g w st)) ->
  exists index patch,
    In index (create_range g)
    /\ element_fetch g w index = Ok patch
    /\ filter_good_patches patch = true
    /\ beam_serialize patch = Ok rec.
Proof.
  unfold generate_training_patch_data.
  destruct (fetch_stage g w) as [patches | e] eqn:Hfetch; simpl; [ | intros []].
  destruct (map_stage beam_serialize _) as [records | e] eqn:Hrecords; simpl; [ | intros []].
  unfold partition_stage.
  destruct (tag_elements _ 3 records st) as [[tagged st'] | e] eqn:Htag; simpl; [ | intros []].
  pose proof (tag_elements_elements _ _ _ _ _ _ Htag) as Hmap.
  intros Hin.
  assert (Hrec : In rec records).
  { rewrite <- Hmap. apply in_app_or in Hin as [Hin | Hin];
      [ | apply in_app_or in Hin as [Hin | Hin]];
      apply (tagged_output_in _ _ _ Hin). }
  destruct (map_stage_in _ _ _ _ Hrecords Hrec) as (patch & Hgood & Hser).
  apply filter_In in Hgood as [Hp Hok].
  destruct (fetch_stage_in g w patches patch Hfetch Hp) as (index & Hi & Hel).
  exists index, patch. auto.
Qed.

End Stages.

Section ElementFailure.

Lemma map_stage_raise {A B : Type} (f : A -> result B) (l : list A) (e : exn) :
  map_stage f l = Raise e -> exists x, In x l /\ f x = Raise e.
Proof.
  induction l as [ | x l IH]; simpl; intros Hrun; [discriminate | ].
  destruct (f x) as [y | e0] eqn:Hx; simpl in Hrun.
  - destruct (map_stage f l) as [ys | e1]; simpl in Hrun; [discriminate | ].
    injection Hrun as ->. destruct (IH eq_refl) as (x' & Hin & Hx'). eauto.
  - injection Hrun as ->. eauto.
Qed.

Lemma map_stage_cons_inv {A B : Type} (f : A -> result B) (x : A) (l : list A)
    (ys : list B) :
  map_stage f (x :: l) = Ok ys ->
  exists y ys', f x = Ok y /\ map_stage f l = Ok ys' /\ ys = y :: ys'.
Proof.
  simpl. destruct (f x) as [y | e]; simpl; [ | discriminate].
  destruct (map_stage f l) as [ys' | e]; simpl; [ | discriminate].
  intros H. injection H as <-. eauto.
Qed.

(** The exception of a failed fetch stage is that of one of its elements. *)
Lemma fetch_stage_raise (g : TrainingDataGenerator) (w : Backend) (e : exn) :
  fetch_stage g w = Raise e ->
  exists index, In index (create_range g) /\ element_fetch g w index = Raise e.
Proof.
  unfold fetch_stage. intros Hrun.
  destruct (map_stage _ (create_range g)) as [points | e0] eqn:Hpoints; simpl in Hrun.
  - destruct (map_stage_raise _ _ _ Hrun) as (coords & Hc & Hfetch).
    destruct (map_stage_in _ _ _ _ Hpoints Hc) as (index & Hi & Hyield).
    exists index. split; [exact Hi | ]. unfold element_fetch. rewrite Hyield. exact Hfetch.
  - injection Hrun as ->.
    destruct (map_stage_raise _ _ _ Hpoints) as (index & Hi & Hyield).
    exists index. split; [exact Hi | ]. unfold element_fetch. rewrite Hyield. reflexivity.
Qed.

Lemma process_element_fetch_raise (g : TrainingDataGenerator) (w : Backend) (index : Z)
    (e : exn) (st : RandomState) (s : Sinks) :
  element_fetch g w index = Raise e -> process_element g w index st s = Raise e.
Proof.
  unfold element_fetch, process_element. intros H.
  destruct (beam_yield_sample_points w index _) as [coords | e0]; simpl in *;
    [ | injection H as ->; reflexivity].
  destruct (beam_get_training_patches w 0 coords _ _ _) as [patch | e0]; simpl in *;
    [discriminate H | injection H as ->; reflexivity].
Qed.

(** What an element leaves behind: nothing committed, and in the temporary
    shards at most its own record, whole. *)
Lemma process_element_inv (g : TrainingDataGenerator) (w : Backend) (index : Z)
    (st st' : RandomState) (s s' : Sinks) :
  process_element g w index st s = Ok (st', s') ->
  committed s' = committed s
  /\ exists patch,
       element_fetch g w index = Ok patch
       /\ ((filter_good_patches patch = false /\ s' = s /\ st' = st)
           \/ (exists record i,
                 filter_good_patches patch = true
                 /\ beam_serialize patch = Ok record
                 /\ split_dataset record 3 (validation_ratio g) (test_ratio g) st
                    = Ok (i, st')
                 /\ (i = 0 \/ i = 1 \/ i = 2)
                 /\ s' = mkSinks (write_record i record (temporary s)) (committed s))).
Proof.
  unfold process_element, element_fetch.
  destruct (beam_yield_sample_points w index _) as [coords | e0]; simpl; [ | discriminate].
  destruct (beam_get_training_patches w 0 coords _ _ _) as [patch | e0]; simpl;
    [ | discriminate].
  destruct (filter_good_patches patch) eqn:Hgood.
  - destruct (beam_serialize patch) as [record | e0] eqn:Hser; simpl; [ | discriminate].
    destruct (split_dataset record 3 _ _ st) as [[i st1] | e0] eqn:Hsplit; simpl;
      [ | discriminate].
    destruct ((0 <=? i) && (i <? 3)) eqn:Hrange; [ | discriminate].
    intros H. injection H as <- <-. split; [reflexivity | ].
    exists patch. split; [reflexivity | ]. right. exists record, i.
    apply andb_true_iff in Hrange as [H0 H3].
    apply Z.leb_le in H0. apply Z.ltb_lt in H3.
    split; [exact Hgood | ]. split; [exact Hser | ]. split; [exact Hsplit | ].
    split; [lia | reflexivity].
  - intros H. injection H as <- <-. split; [reflexivity | ].
    exists patch. split; [reflexivity | ]. left. auto.
Qed.

Lemma write_record_records (i : Z) (record rec : list byte) (o : Outputs) :
  In rec (all_records (write_record i record o)) -> rec = record \/ In rec (all_records o).
Proof.
  unfold write_record, all_records.
  destruct (i =? 0); [ | destruct (i =? 1)]; simpl; rewrite !in_app_iff; simpl;
    rewrite ?in_app_iff; simpl; intuition.
Qed.

Lemma process_elements_committed (g : TrainingDataGenerator) (w : Backend)
    (indices : list Z) :
  forall st s, committed (fst (process_elements g w indices st s)) = committed s.
Proof.
  induction indices as [ | index rest IH]; intros st s; simpl; [reflexivity | ].
  destruct (process_element g w index st s) as [[st' s'] | e] eqn:Hel; [ | reflexivity].
  rewrite IH. apply (process_element_inv _ _ _ _ _ _ _ Hel).
Qed.

(** A run over indices of which one cannot be processed raises, and the
    exception is that of an element. *)
Lemma process_elements_raise (g : TrainingDataGenerator) (w : Backend) (index : Z)
    (e : exn) (indices : list Z) :
  In index indices ->
  element_fetch g w index = Raise e ->
  forall st s,
    exists index' e' st1 s1,
      In index' indices
      /\ process_element g w index' st1 s1 = Raise e'
      /\ snd (process_elements g w indices st s) = Raise e'.
Proof.
  intros Hin Hraise. induction indices as [ | i rest IH]; intros st s; [destruct Hin | ].
  simpl. destruct (process_element g w i st s) as [[st' s'] | e0] eqn:Hel.
  - destruct Hin as [-> | Hin].
    + rewrite (process_element_fetch_raise g w index e st s Hraise) in Hel. discriminate.
    + destruct (IH Hin st' s') as (index' & e' & st1 & s1 & Hi & Hfail & Hrun).
      exists index', e', st1, s1. split; [right; exact Hi | ]. split; assumption.
  - exists i, e0, st, s. split; [left; reflexivity | ]. split; [exact Hel | reflexivity].
Qed.

(** Every record in a shard is the whole serialization of a patch that
    was fetched for one of the indices and passed the validator. *)
Lemma process_elements_records (g : TrainingDataGenerator) (w : Backend)
    (P : list byte -> Prop) (indices : list Z) :
  (forall index patch rec,
     In index indices -> element_fetch g w index = Ok patch ->
     filter_good_patches patch = true -> beam_serialize patch = Ok rec -> P rec) ->
  forall st s,
    (forall rec, In rec (all_records (temporary s)) -> P rec) ->
    forall rec,
      In rec (all_records (temporary (fst (process_elements g w indices st s)))) -> P rec.
Proof.
  induction indices as [ | index rest IH]; intros HP st s Hs rec; simpl; [apply Hs | ].
  destruct (process_element g w index st s) as [[st' s'] | e] eqn:Hel; [ | apply Hs].
  apply IH; [intros i p r Hi; apply HP; right; exact Hi | ].
  destruct (process_element_inv _ _ _ _ _ _ _ Hel)
    as (_ & patch & Hfetch & [(_ & -> & _) | (record & i & Hgood & Hser & _ & _ & ->)]);
    [exact Hs | ].
  intros r Hr. simpl in Hr. apply write_record_records in Hr as [-> | Hr]; [ | auto].
  apply (HP index patch record); auto. left. reflexivity.
Qed.

(** Stage by stage or element by element, a run that ends well leaves the
    same records in the same outputs. *)
Lemma process_elements_agrees (g : TrainingDataGenerator) (w : Backend) :
  forall (indices : list Z) (points : list (list Q)) (patches : list Patch)
    (records : list (list byte)) (tagged : list (Z * list byte))
    (st st' : RandomState) (s : Sinks),
    map_stage (fun index => beam_yield_sample_points w index (sample_locations_list g))
      indices = Ok points ->
    map_stage (fun coords => beam_get_training_patches w 0 coords (selectors g)
                               (scale g) (kernel_size g)) points = Ok patches ->
    map_stage beam_serialize (List.filter filter_good_patches patches) = Ok records ->
    tag_elements (fun element n => split_dataset element n (validation_ratio g) (test_ratio g))
      3 records st = Ok (tagged, st') ->
    process_elements g w indices st s
    = (mkSinks
         (mkOutputs (training_data (temporary s) ++ tagged_output tagged 0)
            (validation_data (temporary s) ++ tagged_output tagged 1)
            (test_data (temporary s) ++ tagged_output tagged 2))
         (committed s),
       Ok st').
Proof.
  induction indices as [ | index rest IH];
    intros points patches records tagged st st' s Hyield Hfetch Hser Htag.
  - simpl in Hyield. injection Hyield as <-. simpl in Hfetch. injection Hfetch as <-.
    simpl in Hser. injection Hser as <-. simpl in Htag. injection Htag as <- <-.
    simpl. unfold tagged_output. simpl. rewrite !app_nil_r.
    destruct s as [[tr va te] c]. reflexivity.
  - apply map_stage_cons_inv in Hyield as (coords & points' & Hy & Hyield & ->).
    apply map_stage_cons_inv in Hfetch as (patch & patches' & Hf & Hfetch & ->).
    cbn [process_elements]. unfold process_element. rewrite Hy. cbn [bind].
    rewrite Hf. cbn [bind]. cbn [List.filter] in Hser.
    destruct (filter_good_patches patch).
    + apply map_stage_cons_inv in Hser as (record & records' & Hr & Hser & ->).
      rewrite Hr. cbn [bind]. cbn [tag_elements] in Htag.
      destruct (split_dataset record 3 _ _ st) as [[i st1] | e] eqn:Hsplit;
        cbn [bind fst snd] in Htag |- *; [ | discriminate].
      destruct ((0 <=? i) && (i <? 3)) eqn:Hrange; [ | discriminate].
      destruct (tag_elements _ 3 records' st1) as [[tagged' st2] | e] eqn:Htag';
        cbn [bind fst snd] in Htag; [ | discriminate].
      injection Htag as <- <-.
      rewrite (IH points' patches' records' tagged' st1 st2 _ Hyield Hfetch Hser Htag').
      apply andb_true_iff in Hrange as [H0 H3].
      apply Z.leb_le in H0. apply Z.ltb_lt in H3.
      assert (Hi : i = 0 \/ i = 1 \/ i = 2) by lia.
      unfold tagged_output, write_record.
      destruct Hi as [-> | [-> | ->]]; simpl; rewrite <- ?app_assoc; reflexivity.
    + apply (IH points' patches' records tagged st st' s Hyield Hfetch Hser Htag).
Qed.

Lemma run_pipeline_agrees (g : TrainingDataGenerator) (w : Backend) (st st' : RandomState)
    (o : Outputs) :
  generate_training_patch_data g w st = Ok (o, st') ->
  run_pipeline g w st = (mkSinks no_records o, Ok st').
Proof.
  unfold generate_training_patch_data, fetch_stage, partition_stage.
  destruct (map_stage _ (create_range g)) as [points | e] eqn:Hyield; simpl; [ | discriminate].
  destruct (map_stage _ points) as [patches | e] eqn:Hfetch; simpl; [ | discriminate].
  destruct (map_stage beam_serialize _) as [records | e] eqn:Hser; simpl; [ | discriminate].
  destruct (tag_elements _ 3 records st) as [[tagged st1] | e] eqn:Htag; simpl;
    [ | discriminate].
  intros H. injection H as <- <-. unfold run_pipeline.
  rewrite (process_elements_agrees g w _ _ _ _ _ _ _ _ Hyield Hfetch Hser Htag).
  reflexivity.
Qed.


Lemma exhausting_backend_raises :
  exists g,
    load_data ["B_before"] 10 false (stub_assets ten_samples) = Ok g
    /\ In 0 (create_range g)
    /\ element_fetch g exhausting_backend 0
         = Raise (RetryError (TooManyRequests "Too Many Requests")).
Proof.
  eexists. split; [reflexivity | ]. split; [left; reflexivity | ].
  vm_compute. reflexivity.
Defined.



End ElementFailure.

(** ** TFUtils.beam_serialize: the features of the record *)

Section SerializeFields.

Lemma index_of_Some (name : string) (names : list string) (i : nat) :
  index_of name names = Some i -> names !! i = Some name.
Proof.
  revert i. induction names as [ | n rest IH]; simpl; intros i H; [discriminate | ].
  destruct (String.eqb name n) eqn:E.
  - apply String.eqb_eq in E. injection H as <-. subst. reflexivity.
  - destruct (index_of name rest) as [j | ]; simpl in H; [ | discriminate].
    injection H as <-. simpl. apply IH. reflexivity.
Qed.

Lemma index_of_In (name : string) (names : list string) :
  In name names -> exists i, index_of name names = Some i.
Proof.
  induction names as [ | n rest IH]; simpl; intros H; [destruct H | ].
  destruct (String.eqb name n) eqn:E; [eauto | ].
  destruct H as [-> | H]; [rewrite String.eqb_refl in E; discriminate | ].
  destruct (IH H) as (i & ->). simpl. eauto.
Qed.

Lemma index_of_not_In (name : string) (names : list string) :
  ~ In name names -> index_of name names = None.
Proof.
  intros H. destruct (index_of name names) as [i | ] eqn:E; [ | reflexivity].
  exfalso. apply H. apply index_of_Some in E.
  apply list_elem_of_In. apply (list_elem_of_lookup_2 _ _ _ E).
Qed.

Lemma patch_wf_pixels (p : Patch) :
  patch_wf p = true ->
  Forall (Forall (fun px : list float32 => length px = length (dtype_names p))) (rows p).
Proof.
  unfold patch_wf. intros H. apply andb_true_iff in H as [H _].
  apply andb_true_iff in H as [_ H].
  destruct (rows p) as [ | r rest] eqn:Hrows; [constructor | ].
  rewrite <- Hrows in *. clear Hrows.
  apply Forall_forall. intros row Hrow.
  rewrite forallb_forall in H. apply list_elem_of_In in Hrow.
  specialize (H row Hrow). unfold row_ok in H. apply andb_true_iff in H as [_ H].
  apply Forall_forall. intros px Hpx. rewrite forallb_forall in H.
  apply list_elem_of_In in Hpx. specialize (H px Hpx). unfold pixel_ok in H.
  apply Nat.eqb_eq in H. exact H.
Qed.

Lemma patch_wf_names (p : Patch) : patch_wf p = true -> NoDup (dtype_names p).
Proof.
  unfold patch_wf. intros H. apply andb_true_iff in H as [H _].
  apply andb_true_iff in H as [H _]. apply bool_decide_eq_true in H. exact H.
Qed.

Lemma patch_wf_valid (p : Patch) :
  patch_wf p = true -> Forall (fun x => valid x = true) (concat (concat (rows p))).
Proof.
  unfold patch_wf. intros H. apply andb_true_iff in H as [_ H].
  apply Forall_forall. intros x Hx. rewrite forallb_forall in H.
  apply H. apply list_elem_of_In. exact Hx.
Qed.

(** In a well-formed patch every field name has its band. *)
Lemma patch_get_field (p : Patch) (name : string) :
  patch_wf p = true -> In name (dtype_names p) ->
  exists band, patch_get p name = Some band.
Proof.
  intros Hwf Hin. destruct (index_of_In _ _ Hin) as (i & Hi).
  unfold patch_get. rewrite Hi. simpl.
  assert (Hlt : (i < length (dtype_names p))%nat).
  { apply index_of_Some in Hi. apply (lookup_lt_Some _ _ _ Hi). }
  apply (mapM_is_Some_2 (mapM (fun px : list float32 => px !! i)) (rows p)).
  eapply Forall_impl; [apply (patch_wf_pixels p Hwf) | ].
  simpl. intros row Hrow. apply mapM_is_Some_2.
  eapply Forall_impl; [exact Hrow | ].
  simpl. intros px Hpx. apply lookup_lt_is_Some. lia.
Qed.

Lemma patch_get_no_field (p : Patch) (name : string) :
  ~ In name (dtype_names p) -> patch_get p name = None.
Proof.
  intros H. unfold patch_get. rewrite (index_of_not_In _ _ H). reflexivity.
Qed.

(** The dictionary comprehension: the entry of a visited name is the
    feature of its band, the other entries are untouched. *)
Lemma features_of_lookup (p : Patch) (names : list string) :
  (forall name, In name names -> exists band, patch_get p name = Some band) ->
  forall acc, exists m,
    features_of p names acc = Ok m
    /\ forall name,
         m !! name = if decide (name ∈ names) then feature_of p name else acc !! name.
Proof.
  induction names as [ | n rest IH]; intros Hget acc.
  - exists acc. split; [reflexivity | ]. intros name.
    destruct (decide (name ∈ [])) as [Hin | _]; [ | reflexivity].
    apply elem_of_nil in Hin. destruct Hin.
  - destruct (Hget n) as (band & Hband); [left; reflexivity | ].
    destruct (IH (fun name H => Hget name (or_intror H))
                (<[n := mkFeature (np_flatten band)]> acc)) as (m & Hrun & Hm).
    exists m. split; [simpl; rewrite Hband; exact Hrun | ].
    intros name. rewrite Hm.
    destruct (decide (name ∈ rest)) as [Hin | Hout].
    + destruct (decide (name ∈ n :: rest)) as [_ | Hno]; [reflexivity | ].
      exfalso. apply Hno. apply elem_of_cons. right. exact Hin.
    + destruct (decide (name = n)) as [-> | Hne].
      * rewrite lookup_insert_eq.
        destruct (decide (n ∈ n :: rest)) as [_ | Hno];
          [ | exfalso; apply Hno; apply elem_of_cons; left; reflexivity].
        unfold feature_of. rewrite Hband. reflexivity.
      * rewrite lookup_insert_ne by congruence.
        destruct (decide (name ∈ n :: rest)) as [Hin | _]; [ | reflexivity].
        apply elem_of_cons in Hin as [Heq | Hin]; [congruence | contradiction].
Qed.

Lemma beam_example_features (p : Patch) :
  patch_wf p = true ->
  exists ex,
    beam_example p = Ok ex
    /\ forall name, features ex !! name = feature_of p name.
Proof.
  intros Hwf.
  destruct (features_of_lookup p (dtype_names p)
              (fun name H => patch_get_field p name Hwf H) ∅) as (m & Hrun & Hm).
  exists (mkExample m). split; [unfold beam_example; rewrite Hrun; reflexivity | ].
  intros name. simpl. rewrite Hm.
  destruct (decide (name ∈ dtype_names p)) as [_ | Hout]; [reflexivity | ].
  rewrite lookup_empty. unfold feature_of.
  rewrite (patch_get_no_field p name); [reflexivity | ].
  intros Hin. apply Hout. apply list_elem_of_In. exact Hin.
Qed.

(** The bands of the pipeline's image: the configured features, then the
    label band. *)
Lemma load_data_selectors (FEATURES : list string) (SCALE : Z) (after : bool)
    (a : Assets) (g : TrainingDataGenerator) :
  load_data FEATURES SCALE after a = Ok g ->
  name_in "class" FEATURES = false ->
  selectors g = FEATURES ++ ["class"].
Proof.
  unfold load_data, select.
  destruct (forallb _ FEATURES); simpl; [ | discriminate].
  intros H Hclass. injection H as <-. simpl.
  unfold addBands, add_band. simpl. rewrite Hclass. reflexivity.
Qed.

End SerializeFields.

Section SerializeFieldsClaims.

Lemma feature_of_is_Some (p : Patch) (name : string) :
  patch_wf p = true -> (is_Some (feature_of p name) <-> name ∈ dtype_names p).
Proof.
  intros Hwf. rewrite list_elem_of_In. unfold feature_of. split.
  - intros [f Hf]. destruct (patch_get p name) as [band | ] eqn:Hband; [ | discriminate].
    destruct (in_dec string_dec name (dtype_names p)) as [Hin | Hout]; [exact Hin | ].
    rewrite (patch_get_no_field p name Hout) in Hband. discriminate.
  - intros Hin. destruct (patch_get_field p name Hwf Hin) as (band & ->). simpl. eauto.
Qed.

(** C6, as the code has it. For a well-formed patch the serializer builds
    exactly one float feature per band name of the patch, holding that
    band's array flattened in row-major order, and no other field. The
    patches of the pipeline carry the configured features and the label
    band [class], so for the features B_before and G_before every record
    holds the three fields B_before, G_before and class. *)
Theorem beam_serialize_fields (patch : Patch) :
  patch_wf patch = true ->
  exists ex,
    beam_example patch = Ok ex
    /\ beam_serialize patch = Ok (SerializeToString ex)
    /\ dom (features ex) = list_to_set (dtype_names patch)
    /\ (forall name, In name (dtype_names patch) ->
          exists band,
            patch_get patch name = Some band
            /\ features ex !! name = Some (mkFeature (np_flatten band)))
    /\ (forall name, ~ In name (dtype_names patch) -> features ex !! name = None)
    /\ (forall FEATURES SCALE after a g,
          load_data FEATURES SCALE after a = Ok g ->
          name_in "class" FEATURES = false ->
          dtype_names patch = selectors g ->
          dom (features ex) = list_to_set (FEATURES ++ ["class"]))
    /\ (forall SCALE after a g,
          load_data ["B_before"; "G_before"] SCALE after a = Ok g ->
          dtype_names patch = selectors g ->
          dom (features ex) = {["B_before"; "G_before"; "class"]}).
Proof.
  intros Hwf. destruct (beam_example_features patch Hwf) as (ex & Hex & Hlookup).
  assert (Hdom : dom (features ex) = list_to_set (dtype_names patch)).
  { apply set_eq. intros name.
    rewrite elem_of_dom, elem_of_list_to_set, Hlookup.
    apply feature_of_is_Some. exact Hwf. }
  exists ex. split; [exact Hex | ].
  split; [unfold beam_serialize; rewrite Hex; reflexivity | ].
  split; [exact Hdom | ].
  split.
  { intros name Hin. destruct (patch_get_field patch name Hwf Hin) as (band & Hband).
    exists band. split; [exact Hband | ].
    rewrite Hlookup. unfold feature_of. rewrite Hband. reflexivity. }
  split.
  { intros name Hout. rewrite Hlookup. unfold feature_of.
    rewrite (patch_get_no_field patch name Hout). reflexivity. }
  split.
  { intros FEATURES SCALE after a g Hload Hclass Hnames.
    rewrite Hdom, Hnames. rewrite (load_data_selectors _ _ _ _ _ Hload Hclass).
    reflexivity. }
  intros SCALE after a g Hload Hnames.
  rewrite Hdom, Hnames. rewrite (load_data_selectors _ _ _ _ _ Hload eq_refl).
  simpl. set_solver.
Qed.

Lemma labelled_patch_wf : patch_wf labelled_patch = true.
Proof. vm_compute. reflexivity. Defined.

Lemma beam_serialize_fields_witness :
  exists ex,
    beam_example labelled_patch = Ok ex
    /\ dom (features ex) = {["B_before"; "G_before"; "class"]}.
Proof.
  destruct (beam_serialize_fields labelled_patch labelled_patch_wf)
    as (ex & Hex & _ & _ & _ & _ & _ & Hdom).
  exists ex. split; [exact Hex | ].
  apply (Hdom 10 false (stub_assets ten_samples) _ eq_refl). reflexivity.
Defined.

(** Against C6 as stated: with the features B_before and G_before
    configured, the pipeline requests the bands B_before, G_before and
    class; a patch with these bands passes the validator and its record
    holds a field named class. *)
Lemma serialized_record_has_label_field :
  exists g ex,
    load_data ["B_before"; "G_before"] 10 false (stub_assets ten_samples) = Ok g
    /\ dtype_names labelled_patch = selectors g
    /\ patch_wf labelled_patch = true
    /\ filter_good_patches labelled_patch = true
    /\ beam_example labelled_patch = Ok ex
    /\ beam_serialize labelled_patch = Ok (SerializeToString ex)
    /\ features ex !! "class" = Some (mkFeature [zero])
    /\ dom (features ex) <> {["B_before"; "G_before"]}.
Proof.
  destruct (beam_example_features labelled_patch labelled_patch_wf) as (ex & Hex & Hlookup).
  eexists. exists ex. split; [reflexivity | ].
  split; [reflexivity | ]. split; [exact labelled_patch_wf | ].
  split; [vm_compute; reflexivity | ]. split; [exact Hex | ].
  split; [unfold beam_serialize; rewrite Hex; reflexivity | ].
  assert (Hclass : features ex !! "class" = Some (mkFeature [zero])).
  { rewrite Hlookup. vm_compute. reflexivity. }
  split; [exact Hclass | ].
  intros Hdom.
  assert (Hmem : "class" ∈ dom (features ex)) by (apply elem_of_dom; eauto).
  rewrite Hdom in Hmem.
  apply elem_of_union in Hmem as [Hmem | Hmem];
    apply elem_of_singleton in Hmem; discriminate Hmem.
Qed.

End SerializeFieldsClaims.

(** ** The record on the wire: writing and reading back *)

Section WireFormat.

Lemma byte_of_N_to_N (n : N) : Byte.to_N (byte_of_N n) = (n mod 256)%N.
Proof.
  unfold byte_of_N. destruct (Byte.of_N (n mod 256)) as [b | ] eqn:E.
  - apply Byte.to_of_N in E. exact E.
  - apply Byte.of_N_None_iff in E. pose proof (N.mod_upper_bound n 256). lia.
Qed.

Lemma decode_varint_loop (fuel : nat) :
  forall (n : N) (rest : list byte),
    (n < 2 ^ N.of_nat fuel)%N ->
    decode_varint (varint_loop fuel n ++ rest) = Some (n, rest).
Proof.
  induction fuel as [ | fuel IH]; intros n rest Hn.
  - simpl in Hn. assert (n = 0%N) as -> by lia. reflexivity.
  - simpl varint_loop. destruct (n <? 128)%N eqn:E.
    + apply N.ltb_lt in E. simpl. rewrite byte_of_N_to_N.
      replace (n mod 256)%N with n by lia.
      apply N.ltb_lt in E. rewrite E. reflexivity.
    + apply N.ltb_ge in E. simpl. rewrite byte_of_N_to_N.
      replace ((128 + n mod 128) mod 256)%N with (128 + n mod 128)%N by lia.
      destruct (128 + n mod 128 <? 128)%N eqn:E'; [apply N.ltb_lt in E'; lia | ].
      rewrite IH.
      * f_equal. f_equal. lia.
      * rewrite Nat2N.inj_succ, N.pow_succ_r' in Hn.
        assert (0 < 2 ^ N.of_nat fuel)%N by (apply N.neq_0_lt_0, N.pow_nonzero; lia).
        lia.
Qed.

Lemma decode_encode_varint (n : N) (rest : list byte) :
  decode_varint (encode_varint n ++ rest) = Some (n, rest).
Proof.
  unfold encode_varint. apply decode_varint_loop.
  rewrite N2Nat.id. apply N.size_gt.
Qed.

Lemma decode_encode_len_delimited (tag : byte) (payload rest : list byte) :
  decode_len_delimited tag (encode_len_delimited tag payload ++ rest)
    = Some (payload, rest).
Proof.
  unfold encode_len_delimited, decode_len_delimited. simpl.
  rewrite (Byte.byte_dec_lb (eq_refl tag)).
  rewrite <- app_assoc, decode_encode_varint, Nat2N.id.
  rewrite length_app.
  destruct (length payload <=? length payload + length rest)%nat eqn:E;
    [ | apply Nat.leb_gt in E; lia].
  rewrite take_app_length, drop_app_length. reflexivity.
Qed.

Lemma decode_only_field_encode (tag : byte) (payload : list byte) :
  decode_only_field tag (encode_len_delimited tag payload) = Some payload.
Proof.
  unfold decode_only_field.
  rewrite <- (app_nil_r (encode_len_delimited tag payload)).
  rewrite decode_encode_len_delimited. reflexivity.
Qed.


Lemma digits2_pos_size (m : positive) : digits2_pos m = Pos.size m.
Proof. induction m as [m IH | m IH | ]; simpl; congruence. Qed.

Lemma digits2_pos_bounds (m : positive) :
  2 ^ (Zpos (digits2_pos m) - 1) <= Zpos m < 2 ^ Zpos (digits2_pos m).
Proof.
  rewrite digits2_pos_size.
  pose proof (Pos.size_gt m) as Hgt. pose proof (Pos.size_le m) as Hle.
  apply Pos2Z.pos_lt_pos in Hgt. apply Pos2Z.pos_le_pos in Hle.
  rewrite Pos2Z.inj_pow in Hgt, Hle.
  replace (Zpos (Pos.size m)) with (Z.succ (Zpos (Pos.size m) - 1)) in Hle at 1 by lia.
  rewrite Z.pow_succ_r in Hle by lia.
  change (Zpos m~0) with (2 * Zpos m) in Hle. lia.
Qed.

(** A valid finite float32 is normal, with a mantissa of 24 bits, or
    subnormal, with the least exponent. *)
Lemma valid_finite_inv (s : bool) (m : positive) (e : Z) :
  valid (S754_finite s m e) = true ->
  (2 ^ 23 <= Zpos m < 2 ^ 24 /\ -149 <= e <= 104)
  \/ (Zpos m < 2 ^ 23 /\ e = -149).
Proof.
  unfold valid, valid_binary, bounded, canonical_mantissa, fexp, emin, prec, emax.
  intros H. apply andb_true_iff in H as [Hc He].
  apply Z.eqb_eq in Hc. apply Z.leb_le in He.
  pose proof (digits2_pos_bounds m) as [Hlo Hhi].
  remember (Zpos (digits2_pos m)) as d eqn:Hd.
  assert (Hd0 : 0 < d) by (subst d; lia).
  destruct (Z.lt_trichotomy d 24) as [Hlt | [Heq | Hgt]].
  - right. split; [ | lia].
    assert (2 ^ d <= 2 ^ 23) by (apply Z.pow_le_mono_r; lia). lia.
  - left. subst d. rewrite Heq in Hlo, Hhi. simpl in Hlo. split; [split; [exact Hlo | exact Hhi] | lia].
  - exfalso. lia.
Qed.

Lemma bits_fields (sb : bool) (E M : N) :
  (E < 256)%N -> (M < 2 ^ 23)%N ->
  (2 ^ 31 <=? (sign_bit sb + E * 2 ^ 23 + M) mod 2 ^ 32)%N = sb
  /\ (((sign_bit sb + E * 2 ^ 23 + M) / 2 ^ 23) mod 256 = E)%N
  /\ ((sign_bit sb + E * 2 ^ 23 + M) mod 2 ^ 23 = M)%N
  /\ (sign_bit sb + E * 2 ^ 23 + M < 2 ^ 32)%N.
Proof.
  intros HE HM.
  change (2 ^ 23)%N with 8388608%N in *. change (2 ^ 32)%N with 4294967296%N.
  destruct sb; unfold sign_bit; change (2 ^ 31)%N with 2147483648%N.
  - split; [apply N.leb_le; lia | ]. split; [lia | ]. split; lia.
  - split; [apply N.leb_gt; lia | ]. split; [lia | ]. split; lia.
Qed.

Lemma f32_bits_fields (x : float32) :
  valid x = true ->
  exists (sb : bool) (E M : N),
    (E < 256)%N /\ (M < 2 ^ 23)%N
    /\ f32_bits x = (sign_bit sb + E * 2 ^ 23 + M)%N
    /\ x = (if (E =? 0)%N then
              match M with
              | N0 => S754_zero sb
              | Npos m => S754_finite sb m (-149)
              end
            else if (E =? 255)%N then
              match M with
              | N0 => S754_infinity sb
              | Npos _ => S754_nan
              end
            else
              match (M + 2 ^ 23)%N with
              | N0 => S754_nan
              | Npos m => S754_finite sb m (Z.of_N E - 150)
              end).
Proof.
  destruct x as [s | s | | s m e]; intros Hv.
  - exists s, 0%N, 0%N.
    split; [reflexivity | ]. split; [reflexivity | ].
    split; [destruct s; reflexivity | reflexivity].
  - exists s, 255%N, 0%N.
    split; [reflexivity | ]. split; [reflexivity | ].
    split; [destruct s; reflexivity | reflexivity].
  - exists false, 255%N, (2 ^ 22)%N.
    split; [reflexivity | ]. split; [reflexivity | ]. split; reflexivity.
  - destruct (valid_finite_inv s m e Hv) as [[[Hlo Hhi] [He1 He2]] | [Hsub He]].
    + exists s, (Z.to_N (e + 150)), (Npos m - 2 ^ 23)%N.
      change (2 ^ 23) with 8388608 in Hlo. change (2 ^ 24) with 16777216 in Hhi.
      change (2 ^ 23)%N with 8388608%N.
      split; [lia | ]. split; [lia | ]. split.
      * unfold f32_bits. change (2 ^ 23)%N with 8388608%N.
        destruct (8388608 <=? Npos m)%N eqn:E; [reflexivity | ].
        apply N.leb_gt in E. lia.
      * destruct (Z.to_N (e + 150) =? 0)%N eqn:E0; [apply N.eqb_eq in E0; lia | ].
        destruct (Z.to_N (e + 150) =? 255)%N eqn:E1; [apply N.eqb_eq in E1; lia | ].
        replace (Npos m - 8388608 + 8388608)%N with (Npos m) by lia.
        f_equal. lia.
    + exists s, 0%N, (Npos m). subst e.
      change (2 ^ 23) with 8388608 in Hsub. change (2 ^ 23)%N with 8388608%N.
      split; [lia | ]. split; [lia | ]. split; [ | reflexivity].
      unfold f32_bits. change (2 ^ 23)%N with 8388608%N.
      destruct (8388608 <=? Npos m)%N eqn:E; [apply N.leb_le in E; lia | ].
      lia.
Qed.

Lemma f32_bits_lt (x : float32) : valid x = true -> (f32_bits x < 2 ^ 32)%N.
Proof.
  intros Hv. destruct (f32_bits_fields x Hv) as (sb & E & M & HE & HM & -> & _).
  apply (bits_fields sb E M HE HM).
Qed.

(** Reading the bits of a float32 gives the float32 back. *)
Lemma f32_of_bits_bits (x : float32) : valid x = true -> f32_of_bits (f32_bits x) = x.
Proof.
  intros Hv. destruct (f32_bits_fields x Hv) as (sb & E & M & HE & HM & Hbits & Hx).
  destruct (bits_fields sb E M HE HM) as (Hs & Hex & Hmant & _).
  unfold f32_of_bits. rewrite Hbits, Hs, Hex, Hmant. symmetry. exact Hx.
Qed.

Lemma of_le_bytes4_le_bytes4 (w : N) :
  (w < 2 ^ 32)%N ->
  of_le_bytes4 (byte_of_N w) (byte_of_N (w / 2 ^ 8)) (byte_of_N (w / 2 ^ 16))
    (byte_of_N (w / 2 ^ 24)) = w.
Proof.
  intros Hw. unfold of_le_bytes4. rewrite !byte_of_N_to_N.
  change (2 ^ 32)%N with 4294967296%N in Hw. change (2 ^ 8)%N with 256%N.
  change (2 ^ 16)%N with 65536%N. change (2 ^ 24)%N with 16777216%N. lia.
Qed.

Lemma decode_encode_floats (l : list float32) :
  Forall (fun x => valid x = true) l -> decode_floats (encode_floats l) = Some l.
Proof.
  induction 1 as [ | x l Hx _ IH]; [reflexivity | ].
  unfold encode_floats in *. simpl. rewrite IH.
  rewrite (of_le_bytes4_le_bytes4 _ (f32_bits_lt x Hx)), (f32_of_bits_bits x Hx).
  reflexivity.
Qed.


Lemma decode_encode_FloatList (v : list float32) :
  Forall (fun x => valid x = true) v ->
  decode_FloatList (encode_FloatList v) = Some v.
Proof.
  intros Hv. destruct v as [ | x v]; [reflexivity | ].
  unfold encode_FloatList, decode_FloatList.
  rewrite decode_only_field_encode.
  unfold encode_len_delimited. apply (decode_encode_floats _ Hv).
Qed.

Lemma decode_encode_Feature (f : Feature) :
  feature_valid f -> decode_Feature (encode_Feature f) = Some f.
Proof.
  intros Hv. unfold decode_Feature, encode_Feature.
  rewrite decode_only_field_encode, (decode_encode_FloatList _ Hv).
  destruct f. reflexivity.
Qed.

Lemma decode_encode_entry (e : string * Feature) :
  feature_valid (snd e) -> decode_entry (encode_entry e) = Some e.
Proof.
  intros Hv. unfold decode_entry, encode_entry.
  rewrite decode_encode_len_delimited, decode_only_field_encode.
  rewrite (decode_encode_Feature _ Hv). simpl.
  rewrite string_of_list_byte_of_string. destruct e. reflexivity.
Qed.

Lemma decode_entries_step (fuel : nat) (payload rest : list byte) :
  decode_entries (S fuel) (encode_len_delimited tag1 payload ++ rest)
    = match decode_entry payload, decode_entries fuel rest with
      | Some e, Some es => Some (e :: es)
      | _, _ => None
      end.
Proof.
  pose proof (decode_encode_len_delimited tag1 payload rest) as H.
  unfold encode_len_delimited in *. simpl app in *.
  cbn [decode_entries]. rewrite H. reflexivity.
Qed.

Lemma decode_encode_entries (entries : list (string * Feature)) :
  Forall (fun e => feature_valid (snd e)) entries ->
  forall fuel,
    (length (encode_Features entries) <= fuel)%nat ->
    decode_entries fuel (encode_Features entries) = Some entries.
Proof.
  induction 1 as [ | e entries He _ IH]; intros fuel Hfuel.
  - destruct fuel; reflexivity.
  - change (encode_Features (e :: entries))
      with (encode_len_delimited tag1 (encode_entry e) ++ encode_Features entries) in *.
    rewrite length_app in Hfuel.
    destruct fuel as [ | fuel]; [simpl in Hfuel; lia | ].
    rewrite decode_entries_step, (decode_encode_entry _ He).
    rewrite IH; [reflexivity | ].
    unfold encode_len_delimited in Hfuel. simpl in Hfuel. lia.
Qed.

Lemma fold_left_insert_entry (l : list (string * Feature)) :
  fold_left insert_entry l ∅ = list_to_map (reverse l).
Proof.
  induction l as [ | e l IH] using rev_ind; [reflexivity | ].
  rewrite fold_left_app, reverse_snoc. simpl. rewrite IH. reflexivity.
Qed.

Lemma fold_left_insert_map_to_list (m : gmap string Feature) :
  fold_left insert_entry (map_to_list m) ∅ = m.
Proof.
  rewrite fold_left_insert_entry.
  rewrite <- (list_to_map_to_list m) at 2.
  apply list_to_map_proper.
  - rewrite fmap_reverse, reverse_Permutation. apply NoDup_fst_map_to_list.
  - apply reverse_Permutation.
Qed.

(** A record whose floats are all float32 values parses back to the
    message it was written from. *)
Lemma decode_SerializeToString (ex : Example) :
  map_Forall (fun _ f => feature_valid f) (features ex) ->
  decode_Example (SerializeToString ex) = Some ex.
Proof.
  intros Hv. unfold decode_Example, SerializeToString.
  rewrite decode_only_field_encode. unfold decode_Features.
  rewrite decode_encode_entries.
  - simpl. rewrite fold_left_insert_map_to_list. destruct ex. reflexivity.
  - apply Forall_forall. intros [k f] Hin. simpl.
    apply elem_of_map_to_list in Hin. apply (Hv k f Hin).
  - lia.
Qed.


(** The values of a band are values of the patch. *)
Lemma mapM_lookup_values (i : nat) (row : list (list float32)) (band_row : list float32) :
  mapM (fun px : list float32 => px !! i) row = Some band_row ->
  forall y, y ∈ band_row -> y ∈ concat row.
Proof.
  intros H. apply mapM_Some in H.
  induction H as [ | px y row band_row Hy _ IH]; intros z Hz.
  - apply elem_of_nil in Hz. destruct Hz.
  - simpl. apply elem_of_app. apply elem_of_cons in Hz as [-> | Hz].
    + left. apply (list_elem_of_lookup_2 _ _ _ Hy).
    + right. apply IH. exact Hz.
Qed.

Lemma patch_get_values (p : Patch) (name : string) (band : list (list float32)) :
  patch_get p name = Some band ->
  forall y, y ∈ concat band -> y ∈ concat (concat (rows p)).
Proof.
  unfold patch_get. destruct (index_of name (dtype_names p)) as [i | ]; simpl;
    [ | discriminate].
  intros H. apply mapM_Some in H.
  induction H as [ | row band_row rows' band' Hrow _ IH]; intros y Hy.
  - apply elem_of_nil in Hy. destruct Hy.
  - simpl in *. rewrite concat_app. apply elem_of_app.
    apply elem_of_app in Hy as [Hy | Hy].
    + left. apply (mapM_lookup_values i row band_row Hrow y Hy).
    + right. replace (concat (concat rows')) with (concat (concat rows' ++ [])).
      * rewrite app_nil_r. apply IH. exact Hy.
      * rewrite app_nil_r. reflexivity.
Qed.

Lemma feature_of_valid (p : Patch) (name : string) (f : Feature) :
  patch_wf p = true -> feature_of p name = Some f -> feature_valid f.
Proof.
  intros Hwf. unfold feature_of.
  destruct (patch_get p name) as [band | ] eqn:Hband; simpl; [ | discriminate].
  intros H. injection H as <-. unfold feature_valid, np_flatten. simpl.
  apply Forall_forall. intros y Hy.
  pose proof (patch_wf_valid p Hwf) as Hvalid. rewrite Forall_forall in Hvalid.
  apply Hvalid. apply (patch_get_values p name band Hband y Hy).
Qed.

End WireFormat.

Section RoundTrip.

(** C7. For a well-formed patch, whatever its band names, the record the
    serializer writes parses back to the same named float arrays: the
    fields are the band names of the patch, and the values of each field
    are the band's array flattened in row-major order, float32 for
    float32. *)
Theorem beam_serialize_round_trip (patch : Patch) :
  patch_wf patch = true ->
  exists record ex,
    beam_serialize patch = Ok record
    /\ decode_Example record = Some ex
    /\ dom (features ex) = list_to_set (dtype_names patch)
    /\ map (fun name => (name, option_map float_list (features ex !! name)))
         (dtype_names patch)
       = named_arrays patch
    /\ (forall name, In name (dtype_names patch) ->
          exists band,
            patch_get patch name = Some band
            /\ option_map float_list (features ex !! name) = Some (np_flatten band)).
Proof.
  intros Hwf. destruct (beam_example_features patch Hwf) as (ex & Hex & Hlookup).
  exists (SerializeToString ex), ex.
  split; [unfold beam_serialize; rewrite Hex; reflexivity | ].
  split.
  { apply decode_SerializeToString. intros name f Hf.
    rewrite Hlookup in Hf. apply (feature_of_valid patch name f Hwf Hf). }
  split.
  { apply set_eq. intros name.
    rewrite elem_of_dom, elem_of_list_to_set, Hlookup.
    apply feature_of_is_Some. exact Hwf. }
  split.
  { unfold named_arrays. apply map_ext. intros name. rewrite Hlookup.
    unfold feature_of. destruct (patch_get patch name); reflexivity. }
  intros name Hin. destruct (patch_get_field patch name Hwf Hin) as (band & Hband).
  exists band. split; [exact Hband | ].
  rewrite Hlookup. unfold feature_of. rewrite Hband. reflexivity.
Qed.

Lemma beam_serialize_round_trip_witness :
  exists record ex,
    beam_serialize labelled_patch = Ok record
    /\ decode_Example record = Some ex
    /\ map (fun name => (name, option_map float_list (features ex !! name)))
         ["B_before"; "G_before"; "class"]
       = [("B_before", Some [one]); ("G_before", Some [one]); ("class", Some [zero])].
Proof.
  destruct (beam_serialize_round_trip labelled_patch labelled_patch_wf)
    as (record & ex & Hser & Hdec & _ & Harrays & _).
  exists record, ex. split; [exact Hser | ]. split; [exact Hdec | ].
  exact Harrays.
Defined.

End RoundTrip.

(** ** The whole job *)

Section Job.

Lemma beam_serialize_ok (p : Patch) :
  patch_wf p = true -> exists record, beam_serialize p = Ok record.
Proof.
  intros Hwf. destruct (beam_example_features p Hwf) as (ex & Hex & _).
  exists (SerializeToString ex). unfold beam_serialize. rewrite Hex. reflexivity.
Qed.

(** A job whose fetches all return writes one record per patch the
    validator accepts, each in one of the three outputs; a patch with a NaN
    or an infinite value is behind none of them. *)
Theorem job_writes_accepted_patches (FEATURES : list string) (SCALE : Z) (after : bool)
    (a : Assets) (g : TrainingDataGenerator) (w : Backend) (st : RandomState)
    (patches : list Patch) :
  load_data FEATURES SCALE after a = Ok g ->
  fetch_stage g w = Ok patches ->
  Forall (fun p => patch_wf p = true) patches ->
  exists o st' records,
    generate_training_patch_data g w st = Ok (o, st')
    /\ map_stage beam_serialize (List.filter filter_good_patches patches) = Ok records
    /\ Permutation (training_data o ++ validation_data o ++ test_data o) records
    /\ length (written (generate_training_patch_data g w st))
       = length (List.filter filter_good_patches patches)
    /\ Forall (fun p => all_finite p = true) (List.filter filter_good_patches patches).
Proof.
  intros Hload Hfetch Hwf.
  destruct (load_data_inv _ _ _ _ _ Hload) as (_ & _ & _ & _ & Hv & Ht & _ & _).
  destruct (map_stage_total beam_serialize (List.filter filter_good_patches patches))
    as (records & Hrecords).
  { intros p Hp. apply filter_In in Hp as [Hp _]. apply beam_serialize_ok.
    rewrite Forall_forall in Hwf. apply Hwf. apply list_elem_of_In. exact Hp. }
  destruct (tag_elements_split (validation_ratio g) (test_ratio g) records st)
    as (tagged & st' & Hrun & Hmap & Htags & _ & _);
    [rewrite Hv, Ht; reflexivity | ].
  pose proof (tagged_outputs_split tagged Htags) as Hperm. rewrite Hmap in Hperm.
  exists (mkOutputs (tagged_output tagged 0) (tagged_output tagged 1) (tagged_output tagged 2)),
    st', records.
  assert (Hjob : generate_training_patch_data g w st
                 = Ok (mkOutputs (tagged_output tagged 0) (tagged_output tagged 1)
                         (tagged_output tagged 2), st')).
  { unfold generate_training_patch_data. rewrite Hfetch. simpl. rewrite Hrecords. simpl.
    unfold partition_stage. rewrite Hrun. reflexivity. }
  split; [exact Hjob | ]. split; [exact Hrecords | ]. split; [exact Hperm | ].
  split.
  - rewrite Hjob. simpl. rewrite (Permutation_length Hperm).
    apply (map_stage_length _ _ _ Hrecords).
  - apply Forall_forall. intros p Hp. apply list_elem_of_In in Hp.
    apply filter_In in Hp as [_ Hp]. apply filter_good_patches_sound. exact Hp.
Qed.

Lemma job_writes_accepted_patches_witness :
  exists o st' records,
    run_job (constant_patch one) = Ok (o, st')
    /\ map_stage beam_serialize (repeat (constant_patch one) 9) = Ok records
    /\ Permutation (training_data o ++ validation_data o ++ test_data o) records
    /\ length (written (run_job (constant_patch one))) = 9%nat.
Proof.
  destruct (job_writes_accepted_patches ["B_before"] 10 false (stub_assets ten_samples)
              _ (stub_backend (constant_patch one)) stub_random
              (nan_patch :: repeat (constant_patch one) 9) eq_refl)
    as (o & st' & records & Hjob & Hrecords & Hperm & Hlen & _).
  - vm_compute. reflexivity.
  - repeat constructor.
  - exists o, st', records. split; [exact Hjob | ]. split; [exact Hrecords | ].
    split; [exact Hperm | exact Hlen].
Defined.

(** C8. Ten sample points, a backend whose patches are deterministic, one
    of them holding a NaN and the nine others all-finite: when the nine
    hold the largest finite float32 the validator drops them with the NaN
    patch and the job writes no record, where nine are claimed; when they
    hold 1.0 it writes nine. *)
Theorem job_drops_overflowing_patches :
  length ten_samples = 10%nat
  /\ fetched_by_job huge_patch = Ok (nan_patch :: repeat huge_patch 9)
  /\ all_finite nan_patch = false
  /\ all_finite huge_patch = true
  /\ patch_wf huge_patch = true
  /\ (forall s, sums_to (patch_values huge_patch) s -> s = inf)
  /\ written (run_job huge_patch) = []
  /\ length (written (run_job (constant_patch one))) = 9%nat.
Proof.
  split; [reflexivity | ].
  split; [vm_compute; reflexivity | ].
  split; [vm_compute; reflexivity | ].
  split; [vm_compute; reflexivity | ].
  split; [vm_compute; reflexivity | ].
  split; [ | split; vm_compute; reflexivity].
  intros s Hs. apply (sums_to_repeat_max _ s Hs 32). reflexivity.
Qed.

End Job.

(** * Part II, continued *)

(** ** The sample points of the pipeline *)

Section YieldStage.

Lemma beam_yield_sample_points_at (w : Backend) (prefix rest : list (list Q))
    (coords : list Q) :
  ee_request w InitializeSession = Ok tt ->
  ee_request w ListSize = Ok tt ->
  ee_request w (ListGet (Z.of_nat (length prefix))) = Ok tt ->
  beam_yield_sample_points w (Z.of_nat (length prefix)) (prefix ++ coords :: rest)
  = Ok coords.
Proof.
  intros Hsession Hsize Hget. unfold beam_yield_sample_points.
  rewrite Hsession, Hsize, Hget. cbn [bind].
  destruct (Z.of_nat (length prefix) <? 0) eqn:E; [apply Z.ltb_lt in E; lia | ].
  rewrite E, Nat2Z.id.
  rewrite lookup_app_r by lia. rewrite Nat.sub_diag. reflexivity.
Qed.

Lemma yield_all_from (w : Backend) (prefix l : list (list Q)) :
  ee_request w InitializeSession = Ok tt ->
  ee_request w ListSize = Ok tt ->
  (forall i, (length prefix <= i < length prefix + length l)%nat ->
     ee_request w (ListGet (Z.of_nat i)) = Ok tt) ->
  map_stage (fun index => beam_yield_sample_points w index (prefix ++ l))
    (map Z.of_nat (seq (length prefix) (length l))) = Ok l.
Proof.
  intros Hsession Hsize. revert prefix.
  induction l as [ | coords l IH]; intros prefix Hget; [reflexivity | ].
  simpl. rewrite beam_yield_sample_points_at; [ | assumption | assumption | ].
  - simpl.
    replace (prefix ++ coords :: l) with ((prefix ++ [coords]) ++ l)
      by (rewrite <- app_assoc; reflexivity).
    replace (S (length prefix)) with (length (prefix ++ [coords]))
      by (rewrite length_app; simpl; lia).
    rewrite IH; [reflexivity | ].
    intros i Hi. apply Hget. rewrite length_app in Hi. simpl in *. lia.
  - apply Hget. simpl. lia.
Qed.

Lemma loaded_sample_list (FEATURES : list string) (SCALE : Z) (after : bool)
    (a : Assets) (g : TrainingDataGenerator) :
  load_data FEATURES SCALE after a = Ok g ->
  sample_locations_list g = sample_locations a
  /\ create_range g = map Z.of_nat (seq 0 (length (sample_locations a))).
Proof.
  intros Hload.
  destruct (load_data_inv _ _ _ _ _ Hload) as (Hsize & _ & _ & _ & _ & _ & Hlist & _).
  split.
  - rewrite Hlist. unfold toList. apply take_all. lia.
  - unfold create_range. rewrite Hsize. apply range_step_one.
Qed.

(** After [load_data], when Earth Engine answers the requests of the
    workers (the session, the size of the list, the point of every index
    of the range), the "Yield sample points" stage delivers the
    coordinates of all samples, in collection order. An index at or beyond
    the sample count, such as those the grace would add, never gives a
    point: its call raises, whatever the backend answers. *)
Theorem yield_stage_delivers_samples (FEATURES : list string) (SCALE : Z)
    (after : bool) (a : Assets) (g : TrainingDataGenerator) (w : Backend) :
  load_data FEATURES SCALE after a = Ok g ->
  (ee_request w InitializeSession = Ok tt ->
   ee_request w ListSize = Ok tt ->
   (forall index, In index (create_range g) -> ee_request w (ListGet index) = Ok tt) ->
   yield_stage g w = Ok (sample_locations a))
  /\ (forall index,
        sample_size g <= index ->
        exists e, beam_yield_sample_points w index (sample_locations_list g) = Raise e).
Proof.
  intros Hload. destruct (loaded_sample_list _ _ _ _ _ Hload) as [Hlist Hrange].
  destruct (load_data_inv _ _ _ _ _ Hload) as (Hsize & _).
  split.
  - intros Hsession Hlistsize Hget. unfold yield_stage. rewrite Hlist, Hrange.
    apply (yield_all_from w [] (sample_locations a) Hsession Hlistsize).
    intros i Hi. apply Hget. rewrite Hrange. apply in_map. apply in_seq. simpl in Hi. lia.
  - intros index Hindex. rewrite Hlist. unfold beam_yield_sample_points.
    destruct (ee_request w InitializeSession); [ | eexists; reflexivity].
    destruct (ee_request w ListSize); [ | eexists; reflexivity].
    destruct (ee_request w (ListGet index)); [ | eexists; reflexivity].
    cbn [bind].
    destruct (index <? 0) eqn:E; [apply Z.ltb_lt in E; lia | ].
    rewrite E. rewrite lookup_ge_None_2; [eexists; reflexivity | lia].
Qed.

Lemma yield_stage_delivers_samples_witness :
  exists g,
    load_data ["B_before"] 10 false (stub_assets ten_samples) = Ok g
    /\ yield_stage g (stub_backend (constant_patch one)) = Ok ten_samples
    /\ exists e,
         beam_yield_sample_points (stub_backend (constant_patch one)) 10
           (sample_locations_list g) = Raise e.
Proof.
  eexists. split; [reflexivity | ].
  destruct (yield_stage_delivers_samples ["B_before"] 10 false (stub_assets ten_samples) _
              (stub_backend (constant_patch one)) eq_refl) as [Hall Hout].
  split.
  - apply Hall; [reflexivity | reflexivity | intros index _; reflexivity].
  - apply Hout. vm_compute. discriminate.
Defined.

End YieldStage.

(** ** The bands of the image and the configured features *)

Section ConfiguredFeatures.

Lemma last_char_append (s t : string) :
  t <> EmptyString -> last_char (String.append s t) = last_char t.
Proof.
  intros Ht. induction s as [ | c s IH]; [reflexivity | ].
  simpl. rewrite IH.
  destruct (String.append s t) eqn:E; [ | reflexivity].
  destruct s; simpl in E; [contradiction | discriminate].
Qed.

Lemma last_char_cons (c : ascii) (s : string) :
  s <> EmptyString -> last_char (String c s) = last_char s.
Proof. destruct s; [contradiction | reflexivity]. Qed.

Lemma pretty_N_char_not_r (x : N) : pretty_N_char x <> "r"%char.
Proof. unfold pretty_N_char. repeat case_match; discriminate. Qed.

Lemma pretty_N_char_not_s (x : N) : pretty_N_char x <> "s"%char.
Proof. unfold pretty_N_char. repeat case_match; discriminate. Qed.

(** A name made by [fresh_suffix] ends in a digit. *)
Section LastChar.

Variable letter : ascii.
Hypothesis not_digit : forall x : N, pretty_N_char x <> letter.
Hypothesis not_underscore : "_"%char <> letter.

Lemma last_char_pretty_N_go (x : N) :
  forall s, last_char s <> Some letter -> last_char (pretty_N_go x s) <> Some letter.
Proof.
  induction (N.lt_wf_0 x) as [x _ IH]; intros s Hs.
  destruct (N.eq_dec x 0%N) as [-> | Hx].
  - rewrite pretty_N_go_0. exact Hs.
  - rewrite pretty_N_go_step by lia. apply IH.
    + apply N.div_lt; lia.
    + destruct s as [ | c s]; simpl.
      * intros H. injection H as H. apply (not_digit _ H).
      * exact Hs.
Qed.

Lemma last_char_pretty_nat (i : nat) : last_char (pretty i) <> Some letter.
Proof.
  unfold pretty, pretty_nat, pretty, pretty_N.
  destruct (decide (N.of_nat i = 0%N)).
  - simpl. intros H. injection H as H. apply (not_digit 0%N). exact H.
  - apply last_char_pretty_N_go. discriminate.
Qed.

Lemma last_char_candidate (i : nat) (n : string) :
  last_char (String.append n (String.append "_" (pretty i))) <> Some letter.
Proof.
  rewrite last_char_append by discriminate.
  change (String.append "_" (pretty i)) with (String "_" (pretty i)).
  pose proof (last_char_pretty_nat i) as Hi.
  destruct (pretty i) as [ | c s] eqn:E.
  - simpl. intros H. injection H as H. apply not_underscore. exact H.
  - rewrite last_char_cons by discriminate. exact Hi.
Qed.

Lemma last_char_fresh_suffix (fuel i : nat) (n : string) (taken : list string) :
  last_char (fresh_suffix fuel i n taken) <> Some letter.
Proof.
  revert i. induction fuel as [ | fuel IH]; intros i; cbn [fresh_suffix].
  - apply last_char_candidate.
  - destruct (name_in _ taken); [apply IH | apply last_char_candidate].
Qed.

End LastChar.

(** Adding bands keeps a property that the old names, the new names and
    the renamed ones have. *)
Lemma addBands_names (P : string -> Prop) (dst src : Image) :
  (forall n, In n (bandNames dst) -> P n) ->
  (forall n, In n (bandNames src) -> P n) ->
  (forall fuel i n taken, P (fresh_suffix fuel i n taken)) ->
  forall n, In n (bandNames (addBands dst src)) -> P n.
Proof.
  unfold addBands. simpl. generalize (bandNames dst) as taken.
  induction (bandNames src) as [ | b rest IH]; intros taken Hdst Hsrc Hfresh n; simpl.
  - apply Hdst.
  - apply IH; [ | intros m Hm; apply Hsrc; right; exact Hm | exact Hfresh].
    intros m Hm. unfold add_band in Hm.
    destruct (name_in b taken); apply in_app_or in Hm as [Hm | [<- | []]]; auto.
    apply Hsrc. left. reflexivity.
Qed.

Lemma regexpRename_suffix_names (suffix : string) (img : Image) (n : string) :
  In n (bandNames (regexpRename_suffix suffix img)) ->
  exists b, n = String.append b suffix.
Proof.
  unfold regexpRename_suffix. simpl. rewrite in_map_iff.
  intros (b & <- & _). eauto.
Qed.

(** Without the composite of [after], no band name ends in the letter r. *)
Lemma stacked_image_last_char (a : Assets) (n : string) :
  In n (bandNames (stacked_image false a)) -> last_char n <> Some "r"%char.
Proof.
  unfold stacked_image.
  apply (addBands_names (fun m => last_char m <> Some "r"%char)).
  - intros m Hm. apply regexpRename_suffix_names in Hm as (b & ->).
    rewrite last_char_append by discriminate. discriminate.
  - intros m Hm. apply regexpRename_suffix_names in Hm as (b & ->).
    rewrite last_char_append by discriminate. discriminate.
  - intros fuel i m taken.
    apply last_char_fresh_suffix; [apply pretty_N_char_not_r | discriminate].
Qed.

Lemma name_in_In (n : string) (names : list string) :
  name_in n names = true <-> In n names.
Proof.
  unfold name_in. rewrite existsb_exists. split.
  - intros (m & Hm & E). apply String.eqb_eq in E. subst. exact Hm.
  - intros H. exists n. split; [exact H | apply String.eqb_refl].
Qed.

Lemma load_data_is_ok (FEATURES : list string) (SCALE : Z) (after : bool) (a : Assets) :
  is_ok (load_data FEATURES SCALE after a)
  = forallb (fun n => name_in n (bandNames (stacked_image after a))) FEATURES.
Proof.
  unfold load_data, stacked_image, select.
  destruct after; destruct (forallb _ FEATURES); reflexivity.
Qed.

(** For features given by their plain names, [load_data] can only succeed
    when every configured feature is a band of the stacked composites,
    each band carrying the suffix of its composite. In particular a
    feature of the composite of [after] (a name ending in _after) makes it
    fail unless [include_after] is set. *)
Theorem load_data_checks_features (FEATURES : list string) (SCALE : Z)
    (after : bool) (a : Assets) :
  Forall (fun n => plain_name n = true) FEATURES ->
  (forall g, load_data FEATURES SCALE after a = Ok g ->
     forall n, In n FEATURES -> In n (bandNames (stacked_image after a)))
  /\ ((exists n, In n FEATURES /\ ~ In n (bandNames (stacked_image after a))) ->
      is_ok (load_data FEATURES SCALE after a) = false)
  /\ (after = false ->
      forall b, In (String.append b "_after") FEATURES ->
        is_ok (load_data FEATURES SCALE after a) = false).
Proof.
  intros _.
  pose proof (load_data_is_ok FEATURES SCALE after a) as Hok.
  assert (Hmissing : forall n, In n FEATURES ->
            ~ In n (bandNames (stacked_image after a)) ->
            is_ok (load_data FEATURES SCALE after a) = false).
  { intros n Hn Hout. rewrite Hok.
    apply not_true_is_false. intros Hall. rewrite forallb_forall in Hall.
    apply Hout. apply name_in_In. apply Hall. exact Hn. }
  split; [ | split].
  - intros g Hg n Hn. rewrite Hg in Hok. simpl in Hok. symmetry in Hok.
    rewrite forallb_forall in Hok. apply name_in_In. apply Hok. exact Hn.
  - intros (n & Hn & Hout). apply (Hmissing n Hn Hout).
  - intros -> b Hb. apply (Hmissing _ Hb). intros Hin.
    apply stacked_image_last_char in Hin.
    rewrite last_char_append in Hin by discriminate. apply Hin. reflexivity.
Qed.

Lemma load_data_checks_features_witness :
  is_ok (load_data ["B_before"; "B_after"] 10 false (stub_assets ten_samples)) = false
  /\ (exists g, load_data ["B_before"; "B_after"] 10 true (stub_assets ten_samples) = Ok g)
  /\ In "B_after" (bandNames (stacked_image true (stub_assets ten_samples))).
Proof.
  split; [ | split].
  - apply (proj2 (proj2 (load_data_checks_features ["B_before"; "B_after"] 10 false
                           (stub_assets ten_samples)
                           ltac:(repeat constructor))) eq_refl "B").
    simpl. auto.
  - eexists. reflexivity.
  - apply (proj1 (load_data_checks_features ["B_before"; "B_after"] 10 true
                    (stub_assets ten_samples) ltac:(repeat constructor)) _ eq_refl).
    simpl. auto.
Defined.

(** No band of the stacked composites ends in the letter s. *)
Lemma stacked_image_not_class (after : bool) (a : Assets) (n : string) :
  In n (bandNames (stacked_image after a)) -> last_char n <> Some "s"%char.
Proof.
  assert (Hsuffix : forall (suffix : string) (img : Image) (m : string),
            suffix <> EmptyString -> last_char suffix <> Some "s"%char ->
            In m (bandNames (regexpRename_suffix suffix img)) ->
            last_char m <> Some "s"%char).
  { intros suffix img m Hne Hlast Hm. apply regexpRename_suffix_names in Hm as (b & ->).
    rewrite last_char_append by exact Hne. exact Hlast. }
  assert (Hfresh : forall fuel i m taken,
            last_char (fresh_suffix fuel i m taken) <> Some "s"%char).
  { intros fuel i m taken.
    apply last_char_fresh_suffix; [apply pretty_N_char_not_s | discriminate]. }
  unfold stacked_image. destruct after.
  - apply (addBands_names (fun m => last_char m <> Some "s"%char)).
    + apply (addBands_names (fun m => last_char m <> Some "s"%char)).
      * intros m. apply Hsuffix; discriminate.
      * intros m. apply Hsuffix; discriminate.
      * exact Hfresh.
    + intros m. apply Hsuffix; discriminate.
    + exact Hfresh.
  - apply (addBands_names (fun m => last_char m <> Some "s"%char)).
    + intros m. apply Hsuffix; discriminate.
    + intros m. apply Hsuffix; discriminate.
    + exact Hfresh.
Qed.



End ConfiguredFeatures.

(** ** Ratios that [split_dataset] does not check *)

Section SplitRatios.

(** [split_dataset] checks neither its ratios nor the number of
    partitions: the one thing that makes it raise is a total of the float
    weights that [random.choices] rejects, one that is not positive or not
    finite. It then raises [ValueError]; otherwise it uses one draw and
    returns 0, 1 or 2. Ratios as large as 1e16 and 0.0 have the float total
    0.0 and make it raise; a negative validation ratio such as -0.5 with
    the test ratio 0.25 is accepted. *)
Theorem split_dataset_unchecked_ratios (A : Type) (element : A) (num_partitions : Z)
    (v t : float64) (st : RandomState) :
  is_ok (split_dataset element num_partitions v t st) = positive_finite_total v t
  /\ (positive_finite_total v t = true ->
      split_dataset element num_partitions v t st
      = Ok (split_index v t (fst (random st)), snd (random st))
      /\ (split_index v t (fst (random st)) = 0
          \/ split_index v t (fst (random st)) = 1
          \/ split_index v t (fst (random st)) = 2))
  /\ (positive_finite_total v t = false ->
      exists msg, split_dataset element num_partitions v t st = Raise (ValueError msg))
  /\ positive_finite_total (S754_finite false 5000000000000000 1) (S754_zero false) = false
  /\ positive_finite_total (S754_finite true (2 ^ 52) (-53)) (S754_finite false (2 ^ 52) (-54))
     = true.
Proof.
  split; [ | split; [ | split; [ | split; vm_compute; reflexivity]]].
  - destruct (positive_finite_total v t) eqn:Hchecks.
    + rewrite (split_dataset_eval element num_partitions v t st Hchecks). reflexivity.
    + destruct (split_dataset_raises element num_partitions v t st Hchecks) as (msg & ->).
      reflexivity.
  - intros Hchecks. split; [apply split_dataset_eval; exact Hchecks | ].
    apply split_index_range.
  - apply split_dataset_raises.
Qed.

End SplitRatios.

(** ** The seeded split *)

Section SeededSplit.

Lemma filter_three_way {A : Type} (p q r : A -> bool) (l : list A) :
  (forall x, In x l ->
     (p x = true /\ q x = false /\ r x = false)
     \/ (p x = false /\ q x = true /\ r x = false)
     \/ (p x = false /\ q x = false /\ r x = true)) ->
  Permutation (List.filter p l ++ List.filter q l ++ List.filter r l) l.
Proof.
  induction l as [ | x l IH]; intros H; [constructor | ].
  assert (IH' := IH (fun y Hy => H y (or_intror Hy))). clear IH.
  destruct (H x (or_introl eq_refl))
    as [(Hp & Hq & Hr) | [(Hp & Hq & Hr) | (Hp & Hq & Hr)]];
    simpl; rewrite Hp, Hq, Hr; simpl.
  - constructor. exact IH'.
  - rewrite <- Permutation_middle. constructor. exact IH'.
  - rewrite app_assoc. rewrite <- Permutation_middle. rewrite <- app_assoc.
    constructor. exact IH'.
Qed.

(** With a test ratio that is not negative, every sample passes exactly
    one of the three filters. *)
Lemma seeded_split_cases (validation_ratio test_ratio : Q) (s : SeededSample) :
  (0 <= test_ratio)%Q ->
  (Qltb (validation_ratio + test_ratio) (random_value s) = true
   /\ Qle_bool (random_value s) validation_ratio = false
   /\ Qltb validation_ratio (random_value s)
      && Qle_bool (random_value s) (validation_ratio + test_ratio) = false)
  \/ (Qltb (validation_ratio + test_ratio) (random_value s) = false
      /\ Qle_bool (random_value s) validation_ratio = true
      /\ Qltb validation_ratio (random_value s)
         && Qle_bool (random_value s) (validation_ratio + test_ratio) = false)
  \/ (Qltb (validation_ratio + test_ratio) (random_value s) = false
      /\ Qle_bool (random_value s) validation_ratio = false
      /\ Qltb validation_ratio (random_value s)
         && Qle_bool (random_value s) (validation_ratio + test_ratio) = true).
Proof.
  intros Ht. unfold Qltb.
  destruct (Qle_bool (random_value s) (validation_ratio + test_ratio)) eqn:E1;
    destruct (Qle_bool (random_value s) validation_ratio) eqn:E2; simpl; auto.
  exfalso. apply Qle_bool_iff in E2.
  assert (Hle : (random_value s <= validation_ratio + test_ratio)%Q) by lra.
  apply Qle_bool_iff in Hle. congruence.
Qed.

Lemma seeded_split_permutation (validation_ratio test_ratio : Q)
    (samples : list SeededSample) :
  (0 <= test_ratio)%Q ->
  Permutation
    (training_sample_locations validation_ratio test_ratio samples
     ++ validation_sample_locations validation_ratio test_ratio samples
     ++ test_sample_locations validation_ratio test_ratio samples)
    samples.
Proof.
  intros Ht. apply filter_three_way. intros s _. apply seeded_split_cases. exact Ht.
Qed.

(** When the test ratio is not negative, the three filters of [load_data]
    split the samples: every sample is in exactly one of the training,
    validation and test collections, which together hold the samples once
    each. The thresholds follow the ratios: validation at or below
    [validation_ratio], test above it up to [validation_ratio + test_ratio],
    training above that. *)
Theorem seeded_split_partitions (validation_ratio test_ratio : Q)
    (samples : list SeededSample) :
  (0 <= test_ratio)%Q ->
  Permutation
    (training_sample_locations validation_ratio test_ratio samples
     ++ validation_sample_locations validation_ratio test_ratio samples
     ++ test_sample_locations validation_ratio test_ratio samples)
    samples
  /\ (length (training_sample_locations validation_ratio test_ratio samples)
      + length (validation_sample_locations validation_ratio test_ratio samples)
      + length (test_sample_locations validation_ratio test_ratio samples)
      = length samples)%nat
  /\ (forall s,
        ~ (In s (training_sample_locations validation_ratio test_ratio samples)
           /\ In s (validation_sample_locations validation_ratio test_ratio samples))
        /\ ~ (In s (training_sample_locations validation_ratio test_ratio samples)
              /\ In s (test_sample_locations validation_ratio test_ratio samples))
        /\ ~ (In s (validation_sample_locations validation_ratio test_ratio samples)
              /\ In s (test_sample_locations validation_ratio test_ratio samples))).
Proof.
  intros Ht.
  pose proof (seeded_split_permutation validation_ratio test_ratio samples Ht) as Hperm.
  split; [exact Hperm | ]. split.
  - apply Permutation_length in Hperm. rewrite !length_app in Hperm. lia.
  - intros s. unfold training_sample_locations, validation_sample_locations,
      test_sample_locations.
    rewrite !filter_In.
    destruct (seeded_split_cases validation_ratio test_ratio s Ht)
      as [(H1 & H2 & H3) | [(H1 & H2 & H3) | (H1 & H2 & H3)]];
      repeat split; intros [[_ Ha] [_ Hb]]; congruence.
Qed.

Lemma seeded_split_partitions_witness :
  Permutation
    (training_sample_locations (2 # 10) (2 # 10) seeded_samples
     ++ validation_sample_locations (2 # 10) (2 # 10) seeded_samples
     ++ test_sample_locations (2 # 10) (2 # 10) seeded_samples)
    seeded_samples
  /\ length (validation_sample_locations (2 # 10) (2 # 10) seeded_samples) = 2%nat.
Proof.
  split; [ | reflexivity].
  apply (seeded_split_partitions (2 # 10) (2 # 10) seeded_samples). discriminate.
Defined.

End SeededSplit.

(** ** The seeded pipelines *)

Section SeededJob.

(** A collection turned into a list of its own size is enumerated whole
    when the requests for its points are answered. *)
Lemma yield_whole_collection (w : Backend) (data : list (list Q)) :
  (forall request, ee_request w request = Ok tt) ->
  map_stage
    (fun index => beam_yield_sample_points w index (toList (Z.of_nat (length data)) data))
    (range 0 (Z.of_nat (length data)) 1)
  = Ok data.
Proof.
  intros Hanswers. unfold toList. rewrite take_all by lia. rewrite range_step_one.
  apply (yield_all_from w [] data); auto.
Qed.

(** One seeded pipeline whose requests are answered and whose fetches all
    return well-formed patches. *)
Lemma generate_data_seed_ok (w : Backend) (data : list (list Q))
    (selectors : list string) (scale kernel_size : Z) :
  (forall request, ee_request w request = Ok tt) ->
  (forall coords, In coords data ->
     exists p, beam_get_training_patches w 0 coords selectors scale kernel_size = Ok p
               /\ patch_wf p = true) ->
  exists records,
    _generate_data_seed w data selectors scale kernel_size = Ok records
    /\ length records = length data
    /\ forall coords p,
         In coords data ->
         beam_get_training_patches w 0 coords selectors scale kernel_size = Ok p ->
         exists r, beam_serialize p = Ok r /\ In r records.
Proof.
  intros Hanswers Hfetch. unfold _generate_data_seed.
  rewrite Hanswers. cbn [bind].
  rewrite (yield_whole_collection w data Hanswers). simpl.
  destruct (map_stage_total
              (fun coords => beam_get_training_patches w 0 coords selectors scale kernel_size)
              data) as (patches & Hpatches).
  { intros coords Hin. destruct (Hfetch coords Hin) as (p & Hp & _). eauto. }
  rewrite Hpatches. simpl.
  destruct (map_stage_total beam_serialize patches) as (records & Hrecords).
  { intros p Hp. destruct (map_stage_in _ _ _ _ Hpatches Hp) as (coords & Hin & Hcoords).
    destruct (Hfetch coords Hin) as (p' & Hp' & Hwf).
    rewrite Hcoords in Hp'. injection Hp' as <-. apply beam_serialize_ok. exact Hwf. }
  exists records. split; [exact Hrecords | ]. split.
  - rewrite (map_stage_length _ _ _ Hrecords). apply (map_stage_length _ _ _ Hpatches).
  - intros coords p Hin Hp.
    destruct (map_stage_all _ _ _ _ Hpatches Hin) as (p' & Hp' & Hin').
    rewrite Hp in Hp'. injection Hp' as <-.
    apply (map_stage_all _ _ _ _ Hrecords Hin').
Qed.



End SeededJob.

(** ** What a record tells of its patch *)

Section SameRecord.

Lemma mapM_app_option {A B : Type} (f : A -> option B) (l1 l2 : list A) :
  mapM f (l1 ++ l2) = a ← mapM f l1; b ← mapM f l2; Some (a ++ b).
Proof.
  induction l1 as [ | x l1 IH]; simpl.
  - destruct (mapM f l2); reflexivity.
  - destruct (f x) as [y | ]; simpl; [ | reflexivity]. rewrite IH.
    destruct (mapM f l1) as [a | ]; simpl; [ | reflexivity].
    destruct (mapM f l2) as [b | ]; reflexivity.
Qed.

Lemma mapM_concat {A B : Type} (f : A -> option B) (rows : list (list A)) :
  mapM f (concat rows) = @concat B <$> mapM (mapM f) rows.
Proof.
  induction rows as [ | r rows IH]; simpl; [reflexivity | ].
  rewrite mapM_app_option, IH.
  destruct (mapM f r) as [a | ]; simpl; [ | reflexivity].
  destruct (mapM (mapM f) rows) as [b | ]; reflexivity.
Qed.

(** The feature of a band is read off the pixels in row-major order. *)
Lemma feature_of_flat (p : Patch) (name : string) :
  feature_of p name
  = mkFeature <$> (i ← index_of name (dtype_names p);
                   mapM (fun px : list float32 => px !! i) (concat (rows p))).
Proof.
  unfold feature_of, patch_get, np_flatten.
  destruct (index_of name (dtype_names p)) as [i | ]; simpl; [ | reflexivity].
  rewrite mapM_concat.
  destruct (mapM (mapM (fun px : list float32 => px !! i)) (rows p)); reflexivity.
Qed.

(** A record tells the fields of its patch and their flattened values,
    and nothing of its shape. Two well-formed patches whose records are
    the same bytes have the same fields with the same values; and patches
    of the same fields and the same pixels in row-major order are turned
    into the same [Example] message, whatever their heights and widths. *)
Theorem beam_serialize_same_record (p q : Patch) :
  patch_wf p = true -> patch_wf q = true ->
  (exists rp rq,
     beam_serialize p = Ok rp
     /\ beam_serialize q = Ok rq
     /\ (rp = rq -> forall name, feature_of p name = feature_of q name))
  /\ (dtype_names p = dtype_names q -> concat (rows p) = concat (rows q) ->
      exists ex, beam_example p = Ok ex /\ beam_example q = Ok ex).
Proof.
  intros Hp Hq.
  destruct (beam_example_features p Hp) as (exp & Hexp & Hlp).
  destruct (beam_example_features q Hq) as (exq & Hexq & Hlq).
  split.
  - exists (SerializeToString exp), (SerializeToString exq).
    split; [unfold beam_serialize; rewrite Hexp; reflexivity | ].
    split; [unfold beam_serialize; rewrite Hexq; reflexivity | ].
    intros Heq name.
    assert (Hdp : decode_Example (SerializeToString exp) = Some exp).
    { apply decode_SerializeToString. intros k f Hf. rewrite Hlp in Hf.
      apply (feature_of_valid p k f Hp Hf). }
    assert (Hdq : decode_Example (SerializeToString exq) = Some exq).
    { apply decode_SerializeToString. intros k f Hf. rewrite Hlq in Hf.
      apply (feature_of_valid q k f Hq Hf). }
    rewrite Heq, Hdq in Hdp. injection Hdp as <-.
    rewrite <- Hlp, <- Hlq. reflexivity.
  - intros Hnames Hrows. exists exp. split; [exact Hexp | ]. rewrite Hexq. f_equal.
    assert (Hmap : features exq = features exp).
    { apply map_eq. intros name. rewrite Hlp, Hlq.
      rewrite !feature_of_flat, Hnames, Hrows. reflexivity. }
    destruct exp, exq. simpl in Hmap. rewrite Hmap. reflexivity.
Qed.

Lemma beam_serialize_same_record_witness :
  exists ex, beam_example square_patch = Ok ex /\ beam_example strip_patch = Ok ex.
Proof.
  apply (proj2 (beam_serialize_same_record square_patch strip_patch eq_refl eq_refl));
    reflexivity.
Defined.

End SameRecord.

(** ** Exports of a collection *)

Section Exports.

Variable task_start : Task -> result unit.

Lemma start_task_ok (start_training : bool) (task : Task) (started : list Task) :
  (forall t, task_start t = Ok tt) ->
  start_task task_start start_training task started
  = (Done, if start_training then started ++ [task] else started).
Proof.
  intros Hstart. unfold start_task. rewrite Hstart. destruct start_training; reflexivity.
Qed.

(** With a backend that answers, [export_collection_data] ends well for
    the export type asset and for no other. The export type cloud has its
    task built and, when asked, started, and then raises all the same,
    with the message of an unknown type; any other type raises with
    nothing started. *)
Theorem export_collection_data_dispatch (collection : Collection) (export_type : string)
    (start_training : bool) (kwargs : gmap string Value) (started : list Task)
    (names : list string) :
  first_propertyNames collection = Ok names ->
  (forall t, task_start t = Ok tt) ->
  (fst (export_collection_data task_start collection export_type start_training kwargs
          started) = Done
   <-> export_type = "asset")
  /\ (export_type = "cloud" ->
      export_collection_data task_start collection export_type start_training kwargs started
      = (Failed (NotImplementedError "Only cloud export is currently supported."),
         if start_training then started ++ [cloud_storage_task collection kwargs names]
         else started))
  /\ (export_type = "asset" ->
      export_collection_data task_start collection export_type start_training kwargs started
      = (Done,
         if start_training then started ++ [asset_task collection kwargs names]
         else started))
  /\ (export_type <> "cloud" -> export_type <> "asset" ->
      export_collection_data task_start collection export_type start_training kwargs started
      = (Failed (NotImplementedError "Only cloud export is currently supported."),
         started)).
Proof.
  intros Hnames Hstart.
  unfold export_collection_data, _export_collection_to_cloud_storage,
    _export_collection_to_asset.
  rewrite Hnames, !start_task_ok by exact Hstart.
  destruct (String.eqb export_type "cloud") eqn:Ec;
    destruct (String.eqb export_type "asset") eqn:Ea; simpl.
  - apply String.eqb_eq in Ec, Ea. subst. discriminate.
  - apply String.eqb_eq in Ec. apply String.eqb_neq in Ea.
    repeat split; try congruence; intros; subst; try discriminate; congruence.
  - apply String.eqb_eq in Ea. apply String.eqb_neq in Ec.
    repeat split; try congruence; intros; subst; try discriminate; congruence.
  - apply String.eqb_neq in Ec, Ea.
    repeat split; try congruence; intros; subst; try discriminate; congruence.
Qed.

End Exports.

Section ExportsDefaults.

Lemma export_collection_data_dispatch_witness :
  export_collection_data (fun _ => Ok tt) training_points "cloud" true export_kwargs []
  = (Failed (NotImplementedError "Only cloud export is currently supported."),
     [Export_table_toCloudStorage training_points (VStr "Training") (VStr "Training")
        (VStr "bhutan-aces") (VStr "TFRecord") (VNames ["B_before"; "class"])]).
Proof.
  rewrite (proj1 (proj2 (export_collection_data_dispatch (fun _ => Ok tt) training_points
                           "cloud" true export_kwargs [] ["B_before"; "class"]
                           eq_refl (fun _ => eq_refl)))
             eq_refl).
  vm_compute. reflexivity.
Defined.

(** The default of the selectors is fetched from the backend before the
    keyword arguments are looked at: when that request fails, an export
    to cloud storage or to an asset fails with its error and starts no
    task, whatever the keyword arguments are, the selectors included. *)
Theorem export_fetches_default_selectors (task_start : Task -> result unit)
    (collection : Collection) (export_type : string) (start_training : bool)
    (kwargs : gmap string Value) (started : list Task) (e : exn) :
  first_propertyNames collection = Raise e ->
  export_type = "cloud" \/ export_type = "asset" ->
  export_collection_data task_start collection export_type start_training kwargs started
  = (Failed (BackendError e), started).
Proof.
  intros Hnames [-> | ->];
    unfold export_collection_data, _export_collection_to_cloud_storage,
      _export_collection_to_asset;
    rewrite Hnames; reflexivity.
Qed.

Lemma export_fetches_default_selectors_witness :
  export_kwargs !! "selectors" = Some (VNames ["B_before"; "class"])
  /\ export_collection_data (fun _ => Ok tt) empty_points "asset" true export_kwargs []
     = (Failed (BackendError
                  (EEException "Element.propertyNames: Parameter 'element' is required.")),
        []).
Proof.
  split; [vm_compute; reflexivity | ].
  apply (export_fetches_default_selectors (fun _ => Ok tt) empty_points "asset" true
           export_kwargs [] _ eq_refl).
  right. reflexivity.
Defined.

End ExportsDefaults.

(** ** The output directory of a training run *)

Section OutputDir.

Lemma append_cons (x : ascii) (a b : string) :
  String.append (String x a) b = String x (String.append a b).
Proof. reflexivity. Qed.

Lemma append_inj_r (s a b : string) : String.append s a = String.append s b -> a = b.
Proof.
  induction s as [ | c s IH]; intros H; [exact H | ].
  rewrite !append_cons in H. injection H as H. apply IH. exact H.
Qed.

Lemma append_assoc (a b c : string) :
  String.append (String.append a b) c = String.append a (String.append b c).
Proof.
  induction a as [ | x a IH]; [reflexivity | ].
  rewrite !append_cons, IH. reflexivity.
Qed.

Lemma append_empty_r (a : string) : String.append a EmptyString = a.
Proof.
  induction a as [ | x a IH]; [reflexivity | ]. rewrite append_cons, IH. reflexivity.
Qed.

Lemma split_path_no_separator (s current : string) :
  no_separator s = true -> split_path s current = [String.append current s].
Proof.
  revert current. induction s as [ | c s IH]; intros current Hs.
  - cbn [split_path]. rewrite append_empty_r. reflexivity.
  - cbn [no_separator] in Hs. apply andb_true_iff in Hs as [Hc Hs].
    apply negb_true_iff in Hc.
    cbn [split_path]. rewrite Hc, IH by exact Hs. rewrite append_assoc. reflexivity.
Qed.

Lemma no_separator_append (a b : string) :
  no_separator (String.append a b) = no_separator a && no_separator b.
Proof.
  induction a as [ | c a IH]; [reflexivity | ].
  rewrite append_cons. cbn [no_separator]. rewrite IH, andb_assoc. reflexivity.
Qed.

Lemma pretty_N_char_no_separator (x : N) : Ascii.eqb (pretty_N_char x) "/" = false.
Proof. unfold pretty_N_char. repeat case_match; reflexivity. Qed.

Lemma no_separator_pretty_N_go (x : N) :
  forall s, no_separator s = true -> no_separator (pretty_N_go x s) = true.
Proof.
  induction (N.lt_wf_0 x) as [x _ IH]; intros s Hs.
  destruct (N.eq_dec x 0%N) as [-> | Hx].
  - rewrite pretty_N_go_0. exact Hs.
  - rewrite pretty_N_go_step by lia. apply IH.
    + apply N.div_lt; lia.
    + simpl. rewrite pretty_N_char_no_separator, Hs. reflexivity.
Qed.

Lemma no_separator_pretty_nat (i : nat) : no_separator (pretty i) = true.
Proof.
  unfold pretty, pretty_nat, pretty, pretty_N.
  destruct (decide (N.of_nat i = 0%N)); [reflexivity | ].
  apply no_separator_pretty_N_go. reflexivity.
Qed.

(** Without a separator in the model type and the date, the directory is
    one component below the output directory. *)
Lemma MODEL_SAVE_DIR_component (OUTPUT_DIR : Path) (MODEL_TYPE today : string) (i : nat) :
  no_separator MODEL_TYPE = true -> no_separator today = true ->
  MODEL_SAVE_DIR OUTPUT_DIR MODEL_TYPE today i
  = OUTPUT_DIR ++ [model_dir_name MODEL_TYPE today i].
Proof.
  intros Hm Ht. unfold MODEL_SAVE_DIR, path_parts. f_equal.
  rewrite split_path_no_separator.
  - reflexivity.
  - unfold model_dir_name. rewrite !no_separator_append, Hm, Ht, no_separator_pretty_nat.
    reflexivity.
Qed.

Lemma model_dir_name_inj (MODEL_TYPE today : string) (i j : nat) :
  model_dir_name MODEL_TYPE today i = model_dir_name MODEL_TYPE today j -> i = j.
Proof.
  unfold model_dir_name. intros H.
  do 5 apply append_inj_r in H. apply (inj pretty). exact H.
Qed.

(** The versions found taken are so many paths of the file system. *)
Lemma versions_bound (fs : gset Path) (OUTPUT_DIR : Path) (MODEL_TYPE today : string)
    (n : nat) :
  (forall j, (1 <= j < n)%nat -> OUTPUT_DIR ++ [model_dir_name MODEL_TYPE today j] ∈ fs) ->
  (n - 1 <= size fs)%nat.
Proof.
  intros Htaken.
  set (l := (fun j => OUTPUT_DIR ++ [model_dir_name MODEL_TYPE today j]) <$> seq 1 (n - 1)).
  assert (Hnodup : NoDup l).
  { apply NoDup_fmap_2; [ | apply NoDup_seq].
    intros i j H. apply app_inv_head in H.
    apply (model_dir_name_inj MODEL_TYPE today). congruence. }
  assert (Hsub : list_to_set (C := gset Path) l ⊆ fs).
  { intros path Hpath. apply elem_of_list_to_set in Hpath.
    apply list_elem_of_fmap in Hpath as (j & -> & Hj).
    apply elem_of_seq in Hj. apply Htaken. lia. }
  apply subseteq_size in Hsub. rewrite size_list_to_set in Hsub by exact Hnodup.
  unfold l in Hsub. rewrite length_fmap, length_seq in Hsub. exact Hsub.
Qed.

Lemma prepare_output_dir_loop_ok (fs : gset Path) (OUTPUT_DIR : Path)
    (MODEL_TYPE today : string) (fuel : nat) :
  no_separator MODEL_TYPE = true -> no_separator today = true ->
  OUTPUT_DIR ∈ fs ->
  forall iterator,
    (1 <= iterator)%nat ->
    (forall j, (1 <= j < iterator)%nat ->
       MODEL_SAVE_DIR OUTPUT_DIR MODEL_TYPE today j ∈ fs) ->
    (size fs < fuel + (iterator - 1))%nat ->
    exists k,
      (iterator <= k)%nat
      /\ prepare_output_dir_loop fuel fs OUTPUT_DIR MODEL_TYPE today iterator
         = Some (inr (k, {[ MODEL_SAVE_DIR OUTPUT_DIR MODEL_TYPE today k ]} ∪ fs))
      /\ (MODEL_SAVE_DIR OUTPUT_DIR MODEL_TYPE today k ∉ fs)
      /\ forall j, (1 <= j < k)%nat -> MODEL_SAVE_DIR OUTPUT_DIR MODEL_TYPE today j ∈ fs.
Proof.
  intros Hm Ht Hdir. induction fuel as [ | fuel IH]; intros iterator Hpos Htaken Hfuel.
  - assert (Hbound : (iterator - 1 <= size fs)%nat).
    { apply (versions_bound fs OUTPUT_DIR MODEL_TYPE today). intros j Hj.
      rewrite <- (MODEL_SAVE_DIR_component _ _ _ _ Hm Ht). apply Htaken. exact Hj. }
    lia.
  - cbn [prepare_output_dir_loop]. unfold os_mkdir.
    destruct (decide (MODEL_SAVE_DIR OUTPUT_DIR MODEL_TYPE today iterator ∈ fs))
      as [Hin | Hout].
    + rewrite bool_decide_eq_true_2 by exact Hin.
      destruct (IH (S iterator)) as (k & Hk & Hrun & Hfree & Hbelow); [lia | | lia | ].
      * intros j Hj. destruct (decide (j = iterator)) as [-> | Hne]; [exact Hin | ].
        apply Htaken. lia.
      * exists k. split; [lia | ]. split; [exact Hrun | ]. split; [exact Hfree | exact Hbelow].
    + rewrite bool_decide_eq_false_2 by exact Hout.
      assert (Hparent : removelast (MODEL_SAVE_DIR OUTPUT_DIR MODEL_TYPE today iterator)
                        = OUTPUT_DIR).
      { rewrite (MODEL_SAVE_DIR_component _ _ _ _ Hm Ht). apply removelast_last. }
      rewrite Hparent, bool_decide_eq_true_2 by exact Hdir.
      exists iterator. split; [lia | ]. split; [reflexivity | ].
      split; [exact Hout | exact Htaken].
Qed.



End OutputDir.

(** ** The learning rate schedule *)

Section LearningRate.

(** When the three rates are ordered, the schedule never raises the rate
    from one epoch to a later one, whatever the numbers of ramp-up and
    sustain epochs are (negative ones included), and it stays between the
    smallest and the largest rate. *)
Theorem lr_scheduler_non_increasing (config : Schedule) (epoch later : Z) :
  (MIN_LR config <= MID_LR config)%Q ->
  (MID_LR config <= MAX_LR config)%Q ->
  epoch <= later ->
  (lr_scheduler config later <= lr_scheduler config epoch)%Q
  /\ (MIN_LR config <= lr_scheduler config epoch)%Q
  /\ (lr_scheduler config epoch <= MAX_LR config)%Q.
Proof.
  intros Hmin Hmax Hle. unfold lr_scheduler.
  destruct (Z.ltb_spec epoch (RAMPUP_EPOCHS config));
    destruct (Z.ltb_spec epoch (RAMPUP_EPOCHS config + SUSTAIN_EPOCHS config));
    destruct (Z.ltb_spec later (RAMPUP_EPOCHS config));
    destruct (Z.ltb_spec later (RAMPUP_EPOCHS config + SUSTAIN_EPOCHS config));
    repeat split; try lra; exfalso; lia.
Qed.

Lemma lr_scheduler_non_increasing_witness :
  (lr_scheduler (mkSchedule 5 10 (1 # 100) (1 # 1000) (1 # 10000)) 20
   <= lr_scheduler (mkSchedule 5 10 (1 # 100) (1 # 1000) (1 # 10000)) 7)%Q.
Proof.
  apply (lr_scheduler_non_increasing (mkSchedule 5 10 (1 # 100) (1 # 1000) (1 # 10000)) 7 20).
  - discriminate.
  - discriminate.
  - lia.
Defined.

End LearningRate.
